(** * btscreener: calendar estimation, event loading and collection

    A shallow embedding of [btscreener/iex.py] and
    [btscreener/collector.py], with the properties of their
    specification stated and settled against it.

    Conventions of the embedding:
    - a Python call that may raise is a value of [result]: [Ok v] for a
      normal return, [Raise e] for an exception that is an instance of
      the class [e];
    - a naive [datetime.datetime] is the number of microseconds since
      0001-01-01T00:00:00, an integer in [0, datetime_max]; a
      [pandas.Timestamp] is such a number within the 64 bits of
      nanoseconds around 1970-01-01;
    - a [str] is the list of its characters, each with its class in the
      Unicode database (a decimal digit and its value, or not one);
    - the remote API answers JSON values and the cache file of the
      ranking table holds fields: the bytes on the wire and in the file
      are not modelled;
    - the remote API, the clock and the files read by the collector are
      arguments of the functions that use them. *)

From Stdlib Require Import ZArith QArith_base List Lia Bool Ascii String.
From Stdlib Require Import DecimalString.
From stdpp Require Import base gmap sets list strings.

Local Open Scope string_scope.
Local Open Scope list_scope.
Local Open Scope Z_scope.

(** ** Python values shared by both modules *)

Module Py.

Inductive exn : Type :=
| KeyError
| ValueError
| TypeError
| OverflowError
| AttributeError
| ConnectionError.

Inductive result (A : Type) : Type :=
| Ok (a : A)
| Raise (e : exn).

Arguments Ok {A} a.
Arguments Raise {A} e.

Definition bind {A B : Type} (r : result A) (k : A -> result B) : result B :=
  match r with
  | Ok a => k a
  | Raise e => Raise e
  end.

(** [try: body except ValueError: handler]: only [ValueError] is
    caught, any other exception goes through. *)
Definition except_ValueError {A : Type} (body handler : result A) : result A :=
  match body with
  | Raise ValueError => handler
  | other => other
  end.

(** A list comprehension [[f(i) for i in xs]]: elements are computed
    from left to right and the first exception ends the comprehension. *)
Fixpoint mapM {A B : Type} (f : A -> result B) (xs : list A) : result (list B) :=
  match xs with
  | [] => Ok []
  | x :: xs' =>
      bind (f x) (fun y => bind (mapM f xs') (fun ys => Ok (y :: ys)))
  end.

(** A generator [(i for i in xs if p(i))] consumed to its end. *)
Fixpoint filterM {A : Type} (p : A -> result bool) (xs : list A) : result (list A) :=
  match xs with
  | [] => Ok []
  | x :: xs' =>
      bind (p x) (fun b =>
      bind (filterM p xs') (fun ys => Ok (if b then x :: ys else ys)))
  end.

(** *** str *)

(** A character of a Python [str], with what the Unicode database of
    the interpreter says of it: a character up to U+00FF, none of which
    is a decimal digit but "0" to "9"; a character beyond U+00FF of
    category Nd, with its decimal value; any other character. *)
Inductive pychar : Type :=
| Ch (c : ascii)
| Nd (code : N) (value : Z)  (* [value] from 0 to 9 *)
| Uni (code : N).

(** A [str]. *)
Definition text : Type := list pychar.

(** The [str] of a literal of this file. *)
Definition str (s : string) : text := map Ch (list_ascii_of_string s).

Definition pychar_eqb (a b : pychar) : bool :=
  match a, b with
  | Ch x, Ch y => Ascii.eqb x y
  | Nd c v, Nd c' v' => N.eqb c c' && Z.eqb v v'
  | Uni c, Uni c' => N.eqb c c'
  | _, _ => false
  end.

(** [s == t] *)
Fixpoint text_eqb (s t : text) : bool :=
  match s, t with
  | [], [] => true
  | a :: s', b :: t' => pychar_eqb a b && text_eqb s' t'
  | _, _ => false
  end.

(** *** datetime *)

Definition datetime : Type := Z.

Definition US_PER_DAY : Z := 86400000000.

(** [date.max.toordinal()], the ordinal of 9999-12-31. *)
Definition MAXORDINAL : Z := 3652059.

(** 9999-12-31T23:59:59.999999 *)
Definition datetime_max : Z := MAXORDINAL * US_PER_DAY - 1.

Definition is_datetime (d : Z) : Prop := 0 <= d <= datetime_max.

(** [datetime.timedelta(days=n)] *)
Definition timedelta_days (n : Z) : Z := n * US_PER_DAY.

(** [d + delta]: [OverflowError] when the sum leaves the range of
    [datetime]. *)
Definition dt_add (d : datetime) (delta : Z) : result datetime :=
  let r := d + delta in
  if (0 <=? r) && (r <=? datetime_max) then Ok r else Raise OverflowError.

Definition is_leap (y : Z) : bool :=
  (y mod 4 =? 0) && (negb (y mod 100 =? 0) || (y mod 400 =? 0)).

Definition days_in_month (y m : Z) : Z :=
  match m with
  | 2 => if is_leap y then 29 else 28
  | 4 | 6 | 9 | 11 => 30
  | _ => 31
  end.

Definition days_before_year (y : Z) : Z :=
  let p := y - 1 in p * 365 + p / 4 - p / 100 + p / 400.

Definition days_before_month (y m : Z) : Z :=
  fold_right Z.add 0
    (map (days_in_month y) (map Z.of_nat (seq 1 (Z.to_nat (m - 1))))).

Definition ymd2ord (y m d : Z) : Z :=
  days_before_year y + days_before_month y m + d.

(** [datetime.datetime(y, m, d)]: midnight of the given day, or
    [ValueError] when the fields are out of range. *)
Definition datetime_of_ymd (y m d : Z) : result datetime :=
  if (1 <=? y) && (y <=? 9999) && (1 <=? m) && (m <=? 12)
     && (1 <=? d) && (d <=? days_in_month y m)
  then Ok ((ymd2ord y m d - 1) * US_PER_DAY)
  else Raise ValueError.

(** The same for literals of this file, fields taken as valid. *)
Definition ymd (y m d : Z) : datetime := (ymd2ord y m d - 1) * US_PER_DAY.

(** [min(xs)] and [max(xs)] over an iterable of datetimes. *)
Definition py_min (xs : list datetime) : result datetime :=
  match xs with
  | [] => Raise ValueError
  | x :: xs' => Ok (fold_left Z.min xs' x)
  end.

Definition py_max (xs : list datetime) : result datetime :=
  match xs with
  | [] => Raise ValueError
  | x :: xs' => Ok (fold_left Z.max xs' x)
  end.

(** *** pandas.Timestamp *)

(** 1970-01-01T00:00:00, the day of ordinal 719163. *)
Definition EPOCH : Z := 719162 * US_PER_DAY.

(** A [Timestamp] counts the nanoseconds from [EPOCH] in 64 bits: at
    the precision of a [datetime] it lies within 9223372036854775
    microseconds of it, from 1677-09-21T00:12:43.145225 to
    2262-04-11T23:47:16.854775. *)
Definition TIMESTAMP_SPAN : Z := 9223372036854775.

Definition is_timestamp (d : Z) : bool :=
  (EPOCH - TIMESTAMP_SPAN <=? d) && (d <=? EPOCH + TIMESTAMP_SPAN).

(** [ts + delta] for a [Timestamp]: [OutOfBoundsDatetime], which is a
    [ValueError], when the sum leaves the range of [Timestamp]. *)
Definition ts_add (d : datetime) (delta : Z) : result datetime :=
  let r := d + delta in
  if is_timestamp r then Ok r else Raise ValueError.

End Py.

Export Py.

Declare Scope result_scope.
Delimit Scope result_scope with result.
Notation "'try' x <- c1 'in' c2" := (Py.bind c1 (fun x => c2))
  (at level 10, x name, c1 at level 100, c2 at level 200,
   format "'[v' 'try'  x  <-  c1  'in' '/' c2 ']'") : result_scope.
Local Open Scope result_scope.

(** ** iex.py *)

Module Iex.

Section Estimator.

(** The [+] of the elements of [prev_dates] with a [timedelta]: that of
    [datetime.datetime] or that of [pandas.Timestamp], by the objects
    that the caller passes. *)
Variable add : datetime -> Z -> result datetime.

(** The body of [estimate_next(prev_dates)], with the clock reading
    [datetime.datetime.today()] as the argument [today]. *)
Definition estimate_next_with (today : datetime) (prev_dates : list datetime)
  : result (option datetime) :=
  try g365 <- mapM (fun i => add i (timedelta_days 365)) prev_dates in
  try g730 <- mapM (fun i => add i (timedelta_days 730)) prev_dates in
  let guesses := g365 ++ g730 in
  except_ValueError
    (try kept <- filterM (fun i => try j <- add i (timedelta_days 365) in
                                   Ok (today <? j)) guesses in
     try m <- py_min kept in
     Ok (Some m))
    (Ok None).

End Estimator.

(** [estimate_next(prev_dates)] on a list of [datetime.datetime], as
    its documentation has it. *)
Definition estimate_next (today : datetime) (prev_dates : list datetime)
  : result (option datetime) :=
  estimate_next_with dt_add today prev_dates.


(** *** JSON payloads and data frames *)

(** A JSON scalar as [requests]' [json()] returns it. *)
Inductive scalar : Type :=
| SNull
| SBool (b : bool)
| SNum (q : Q)
| SStr (s : text).

(** A JSON object of scalars, keys in the order received. *)
Definition record : Type := list (string * scalar).

(** A field of the object answered by the earnings endpoint. *)
Inductive field : Type :=
| FScalar (v : scalar)
| FRecords (rs : list record).

Definition earnings_payload : Type := list (string * field).
Definition dividends_payload : Type := list record.

(** The remote API: what [requests.get(url).json()] gives for the
    earnings and the dividends URL of a symbol, or the exception of
    the transport. *)
Record Remote : Type := {
  get_earnings : string -> result earnings_payload;
  get_dividends : string -> result dividends_payload
}.

(** A cell of a frame: a JSON scalar, NaN where a record has no such
    key, or a parsed date. *)
Inductive cell : Type :=
| CNaN
| CVal (v : scalar)
| CDate (d : datetime).

(** A frame with its default range index: named columns of equal
    length. *)
Record DataFrame : Type := {
  nrows : nat;
  columns : list (string * list cell)
}.

(** A frame after [set_index] on a column of dates. *)
Record DateFrame : Type := {
  index : list datetime;
  data : list (string * list cell)
}.

Fixpoint assoc {A : Type} (k : string) (l : list (string * A)) : option A :=
  match l with
  | [] => None
  | (k', v) :: l' => if String.eqb k k' then Some v else assoc k l'
  end.

Definition has_key {A : Type} (k : string) (l : list (string * A)) : bool :=
  existsb (String.eqb k) (map fst l).

Definition add_key (ks : list string) (k : string) : list string :=
  if existsb (String.eqb k) ks then ks else ks ++ [k].

(** The union of the keys of the records, by first appearance. *)
Definition keys_union (rs : list record) : list string :=
  fold_left (fun acc r => fold_left add_key (map fst r) acc) rs [].

(** A cell that keeps its column a column of objects: text or a
    boolean. *)
Definition is_object_cell (c : cell) : bool :=
  match c with
  | CVal (SStr _) | CVal (SBool _) | CDate _ => true
  | _ => false
  end.

(** A number, or the NaN of a missing key. *)
Definition is_float_cell (c : cell) : bool :=
  match c with
  | CVal (SNum _) | CNaN => true
  | _ => false
  end.

Definition null_to_nan (c : cell) : cell :=
  match c with
  | CVal SNull => CNaN
  | _ => c
  end.

(** The conversion that [pd.DataFrame] applies to each column of
    objects it has collected: a column without text and without
    booleans that holds a number or a NaN becomes a column of floats,
    in which [None] is NaN; any other column is left as it is. *)
Definition convert_column (cs : list cell) : list cell :=
  if existsb is_object_cell cs then cs
  else if existsb is_float_cell cs then map null_to_nan cs
  else cs.

(** [pd.DataFrame(rs)] for a list of records: a column for each key,
    NaN where a record has no such key. *)
Definition frame_of_records (rs : list record) : DataFrame :=
  {| nrows := length rs;
     columns :=
       map (fun c =>
              (c, convert_column
                    (map (fun r => match assoc c r with
                                   | Some v => CVal v
                                   | None => CNaN
                                   end) rs)))
           (keys_union rs) |}.

(** [pd.DataFrame(x)] for a field of a JSON object: [None] gives the
    empty frame, any other scalar is refused. *)
Definition frame_of_field (x : field) : result DataFrame :=
  match x with
  | FRecords rs => Ok (frame_of_records rs)
  | FScalar SNull => Ok (frame_of_records [])
  | FScalar _ => Raise ValueError
  end.

(** Every column holds [n] cells. *)
Definition rectangular (n : nat) (cols : list (string * list cell)) : Prop :=
  Forall (fun cv => length (snd cv) = n) cols.

(** [df[cols]] *)
Definition getitem_cols (df : DataFrame) (cols : list string)
  : result (list (string * list cell)) :=
  mapM (fun c => match assoc c (columns df) with
                 | Some v => Ok (c, v)
                 | None => Raise KeyError
                 end) cols.

(** [sel.applymap(f)]: column by column, each from its first row. *)
Definition applymap (f : cell -> result cell) (sel : list (string * list cell))
  : result (list (string * list cell)) :=
  mapM (fun cv => try v <- mapM f (snd cv) in Ok (fst cv, v)) sel.

(** [df[cols] = sel] *)
Definition setitem_cols (df : DataFrame) (sel : list (string * list cell))
  : DataFrame :=
  {| nrows := nrows df;
     columns := map (fun cv => match assoc (fst cv) sel with
                               | Some v => (fst cv, v)
                               | None => cv
                               end) (columns df) |}.

Definition as_datetime (c : cell) : result datetime :=
  match c with
  | CDate d => Ok d
  | _ => Raise TypeError
  end.

(** [df.set_index(name)] for a column of dates. In this module the
    column is always one that [parsedate] has just filled, so that the
    [TypeError] of [as_datetime] is never met (see [set_index_dates]). *)
Definition set_index (name : string) (df : DataFrame) : result DateFrame :=
  match assoc name (columns df) with
  | None => Raise KeyError
  | Some cells =>
      try ds <- mapM as_datetime cells in
      Ok {| index := ds;
            data := List.filter (fun cv => negb (String.eqb name (fst cv)))
                           (columns df) |}
  end.

(** What [df.loc[label, col]] gives: the cell when the label is unique
    in the index, the series of the cells otherwise. *)
Inductive value : Type :=
| VScalar (c : cell)
| VSeries (cs : list cell).

Fixpoint select {A : Type} (label : datetime) (idx : list datetime) (cs : list A)
  : list A :=
  match idx, cs with
  | i :: idx', c :: cs' =>
      if i =? label then c :: select label idx' cs' else select label idx' cs'
  | _, _ => []
  end.

Definition loc (df : DateFrame) (label : datetime) (col : string) : result value :=
  match assoc col (data df) with
  | None => Raise KeyError
  | Some cells =>
      match select label (index df) cells with
      | [] => Raise KeyError
      | [c] => Ok (VScalar c)
      | cs => Ok (VSeries cs)
      end
  end.

(** *** parsedate *)

(** [strptime] compiles the format "%Y-%m-%d" to the regular expression
    [(\d\d\d\d)-(1[0-2]|0[1-9]|[1-9])-(3[0-1]|[1-2]\d|0[1-9]|[1-9]| [1-9])],
    matches it at the start of the text and reads each group with
    [int]. *)

(** A character of the class [0-9]. *)
Definition ascii_digit (c : pychar) : option Z :=
  match c with
  | Ch a =>
      let n := Z.of_N (N_of_ascii a) in
      if (48 <=? n) && (n <=? 57) then Some (n - 48) else None
  | _ => None
  end.

(** A character of the class [\d], which in a [str] pattern is every
    decimal digit of Unicode, and the value [int] gives it. *)
Definition digit (c : pychar) : option Z :=
  match c with
  | Ch _ => ascii_digit c
  | Nd _ v => if (0 <=? v) && (v <=? 9) then Some v else None
  | Uni _ => None
  end.

(** A character of the class [lo-hi]. *)
Definition digit_in (lo hi : Z) (c : pychar) : option Z :=
  match ascii_digit c with
  | Some n => if (lo <=? n) && (n <=? hi) then Some n else None
  | None => None
  end.

(** The directive [%Y]: four digits. *)
Definition match_Y (s : text) : option (Z * text) :=
  match s with
  | a :: b :: c :: d :: r =>
      match digit a, digit b, digit c, digit d with
      | Some a, Some b, Some c, Some d =>
          Some (1000 * a + 100 * b + 10 * c + d, r)
      | _, _, _, _ => None
      end
  | _ => None
  end.

(** Two characters [t u] with [t] the given tens digit and [u] a digit
    of [lo..hi]. *)
Definition two_chars (tens : Z) (lo hi : Z) (s : text) : list (Z * text) :=
  match s with
  | t :: u :: r =>
      match digit_in tens tens t, digit_in lo hi u with
      | Some _, Some n => [(10 * tens + n, r)]
      | _, _ => []
      end
  | _ => []
  end.

(** Two characters [t u] with [t] the given tens digit and [u] of the
    class [\d]. *)
Definition two_chars_d (tens : Z) (s : text) : list (Z * text) :=
  match s with
  | t :: u :: r =>
      match digit_in tens tens t, digit u with
      | Some _, Some n => [(10 * tens + n, r)]
      | _, _ => []
      end
  | _ => []
  end.

Definition one_char (lo hi : Z) (s : text) : list (Z * text) :=
  match s with
  | u :: r => match digit_in lo hi u with
              | Some n => [(n, r)]
              | None => []
              end
  | _ => []
  end.

(** The directive [%m], alternatives [1[0-2]|0[1-9]|[1-9]] in the
    order in which they are tried. *)
Definition match_m (s : text) : list (Z * text) :=
  two_chars 1 0 2 s ++ two_chars 0 1 9 s ++ one_char 1 9 s.

(** The directive [%d], alternatives
    [3[0-1]|[1-2]\d|0[1-9]|[1-9]| [1-9]]. *)
Definition match_d (s : text) : list (Z * text) :=
  two_chars 3 0 1 s ++ two_chars_d 1 s ++ two_chars_d 2 s
  ++ two_chars 0 1 9 s ++ one_char 1 9 s
  ++ match s with
     | Ch " " :: r => one_char 1 9 r
     | _ => []
     end.

Definition after_dash (s : text) : option text :=
  match s with
  | Ch "-" :: r => Some r
  | _ => None
  end.

(** The first way to match ["%m-%d"]: the alternatives of the month
    are tried in order, and for each the first alternative of the
    day. *)
Fixpoint first_md (ms : list (Z * text)) : option (Z * Z * text) :=
  match ms with
  | [] => None
  | (m, r) :: ms' =>
      match after_dash r with
      | Some r' =>
          match match_d r' with
          | (d, r'') :: _ => Some (m, d, r'')
          | [] => first_md ms'
          end
      | None => first_md ms'
      end
  end.

(** [datetime.datetime.strptime(s, "%Y-%m-%d")]: a [ValueError] when
    the text does not match, when text remains after the match, or when
    the fields are not a date. *)
Definition strptime_ymd (s : text) : result datetime :=
  match match_Y s with
  | None => Raise ValueError
  | Some (y, r) =>
      match after_dash r with
      | None => Raise ValueError
      | Some r' =>
          match first_md (match_m r') with
          | Some (m, d, []) => datetime_of_ymd y m d
          | _ => Raise ValueError
          end
      end
  end.

(** [parsedate] applied to a cell: [strptime] wants a [str]. *)
Definition parsedate (c : cell) : result cell :=
  match c with
  | CVal (SStr s) => try d <- strptime_ymd s in Ok (CDate d)
  | _ => Raise TypeError
  end.

(** *** Loaders *)

(** [load_earnings(symbol)]. The function has no [return None]; its
    result is wrapped in [Some] for the test [earnings is not None] of
    its caller. *)
Definition load_earnings (api : Remote) (symbol : string)
  : result (option DateFrame) :=
  try result <- get_earnings api symbol in
  try earnings <- match assoc "earnings" result with
                  | Some x => Ok x
                  | None => Raise KeyError
                  end in
  try df <- frame_of_field earnings in
  try sel <- getitem_cols df ["EPSReportDate"; "fiscalEndDate"] in
  try parsed <- applymap parsedate sel in
  let df := setitem_cols df parsed in
  try indexed <- set_index "EPSReportDate" df in
  Ok (Some indexed).

(** [load_dividends(symbol)] *)
Definition load_dividends (api : Remote) (symbol : string)
  : result (option DateFrame) :=
  try result <- get_dividends api symbol in
  let df := frame_of_records result in
  if has_key "exDate" (columns df) then
    let date_cols := ["declaredDate"; "exDate"; "paymentDate"; "recordDate"] in
    try sel <- getitem_cols df date_cols in
    try parsed <- applymap parsedate sel in
    let df := setitem_cols df parsed in
    try indexed <- set_index "exDate" df in
    Ok (Some indexed)
  else
    Ok None.

Record CalendarSummary : Type := {
  lastEPSReportDate : option datetime;
  nextEPSReportDate : option datetime;
  lastExDate : option datetime;
  lastDividend : option value;
  nextExDate : option datetime
}.

(** The [+] of the objects that iterating [df.index] yields. The
    column of dates that [set_index] makes the index is a column of
    [Timestamp] when every date is in the range of [Timestamp], and
    stays a column of [datetime.datetime] when one is not. *)
Definition index_add (idx : list datetime) : datetime -> Z -> result datetime :=
  if forallb is_timestamp idx then ts_add else dt_add.

(** [estimate_next(df.index)] *)
Definition estimate_next_index (today : datetime) (idx : list datetime)
  : result (option datetime) :=
  estimate_next_with (index_add idx) today idx.

(** [load_calendar(symbol)]. [today_eps] and [today_ex] are the clock
    readings of the two calls of [estimate_next]. *)
Definition load_calendar (today_eps today_ex : datetime) (api : Remote)
  (symbol : string) : result CalendarSummary :=
  try earnings <- load_earnings api symbol in
  try dividends <- load_dividends api symbol in
  try reports <-
    match earnings with
    | Some e =>
        try last_reportDate <- py_max (index e) in
        try next_reportDate <- estimate_next_index today_eps (index e) in
        Ok (Some last_reportDate, next_reportDate)
    | None => Ok (None, None)
    end in
  try exdates <-
    match dividends with
    | Some d =>
        try last_exDate <- py_max (index d) in
        try last_dividend <- loc d last_exDate "amount" in
        try next_exDate <-
          match earnings with
          | Some e => estimate_next_index today_ex (index e)
          | None => Raise AttributeError
          end in
        Ok (Some last_exDate, Some last_dividend, next_exDate)
    | None => Ok (None, None, None)
    end in
  Ok {| lastEPSReportDate := fst reports;
        nextEPSReportDate := snd reports;
        lastExDate := fst (fst exdates);
        lastDividend := snd (fst exdates);
        nextExDate := snd exdates |}.

End Iex.

(** ** collector.py *)

Module Collector.

Definition dji_components : list string :=
  ["v"; "xom"; "wmt"; "cat"; "cvx"; "aapl"; "gs"; "axp";
   "ibm"; "mcd"; "mmm"; "jpm"; "ba"; "trv"; "msft"; "dwdp";
   "pg"; "nke"; "ko"; "mrk"; "dis"; "csco"; "intc"; "jnj";
   "pfe"; "unh"; "hd"; "wba"; "vz"; "utx"].

Definition faves_components : list string :=
  ["aapl"; "fb"; "amzn"; "goog"; "nflx";
   "dis"; "de"; "mcd"; "ibm"; "cpb";
   "nvda"; "amd"; "mu"; "intc";
   "bac"; "usb"; "brk.b";
   "x"; "cat"; "ba"; "luv";
   "tsla"; "snap"; "twtr"; "spot";
   "tlry"; "cgc"; "stz";
   "pfe"].

(** [x in xs] for a list of strings. *)
Definition py_in (x : string) (xs : list string) : bool :=
  existsb (String.eqb x) xs.

(** [list(set(xs))]. The order in which Python iterates a set is not
    specified; [elements] fixes one, and nothing below depends on it. *)
Definition list_set (xs : list string) : list string :=
  elements (list_to_set xs : gset string).

(** *** load_symbol_list *)

(** The default values of the two parameters are list objects created
    once, when the function is defined. [groups] is only read.
    [symbols += ...] extends in place the list bound to [symbols]: the
    caller's list, or the default list, whose content is the state
    [default_symbols] carried from call to call. *)
Record outcome : Type := {
  returned : result (list string);
  symbols_after : list string;
  default_after : list string
}.

Definition default_groups : list string := ["faves"].

Section SymbolList.

(** [list(load_sp500_weights().Symbol)]: the Symbol column of the
    ranking table read from the cache file or the saved page, or the
    exception of that read. *)
Variable sp500_symbols : result (list string).

(** The list added by the [if]/[elif] chain. *)
Definition group_symbols (groups : list string) : result (list string) :=
  if py_in "faves" groups then Ok faves_components
  else if py_in "dji" groups then Ok dji_components
  else if py_in "sp" groups then sp500_symbols
  else Ok [].

Definition load_symbol_list (groups symbols : option (list string))
  (default_symbols : list string) : outcome :=
  let groups := default default_groups groups in
  let bound := default default_symbols symbols in
  match group_symbols groups with
  | Raise e =>
      {| returned := Raise e;
         symbols_after := bound;
         default_after := default_symbols |}
  | Ok added =>
      let bound := bound ++ added in
      {| returned :=
           if (length bound =? 0)%nat then Raise ValueError
           else Ok (list_set bound);
         symbols_after := bound;
         default_after :=
           match symbols with
           | Some _ => default_symbols
           | None => bound
           end |}
  end.

End SymbolList.

(** *** generate_stats and run_collection *)

(** The calls made while collecting, in the order in which they are
    made. *)
Inductive event : Type :=
| LogCollecting (symbol : string)
| CallHistorical (symbol : string)
| CallBacktest (symbol : string)
| CallCalendar (symbol : string).

(** A computation that appends to the log of calls and returns or
    raises. *)
Definition traced (A : Type) : Type := list event -> result A * list event.

Definition pure {A : Type} (a : A) : traced A := fun tr => (Ok a, tr).

Definition and_then {A B : Type} (m : traced A) (k : A -> traced B) : traced B :=
  fun tr =>
    match m tr with
    | (Ok a, tr') => k a tr'
    | (Raise e, tr') => (Raise e, tr')
    end.

(** A call: logged when made, then its outcome. *)
Definition call {A : Type} (ev : event) (r : result A) : traced A :=
  fun tr => (r, tr ++ [ev]).

Definition lift {A : Type} (r : result A) : traced A := fun tr => (r, tr).

Notation "'run' x <- c1 'in' c2" := (and_then c1 (fun x => c2))
  (at level 10, x name, c1 at level 100, c2 at level 200,
   format "'[v' 'run'  x  <-  c1  'in' '/' c2 ']'").

Definition event_symbol (ev : event) : string :=
  match ev with
  | LogCollecting s | CallHistorical s | CallBacktest s | CallCalendar s => s
  end.

(** The calls of a symbol whose row is produced. *)
Definition all_calls (symbol : string) : list event :=
  [LogCollecting symbol; CallHistorical symbol;
   CallBacktest symbol; CallCalendar symbol].

(** The table built by [pd.DataFrame(rows, index=symbols)]. *)
Record Table (row : Type) : Type := {
  tbl_index : list string;
  tbl_rows : list row
}.
Arguments tbl_index {row}.
Arguments tbl_rows {row}.

Section Pipeline.

(** [hist] is what [load_historical] returns and [stats] the series
    that [run_backtest] (module [btscreener.chart]) computes from it. *)
Context {hist stats : Type}.
Variable load_historical : string -> result hist.
Variable run_backtest : hist -> result stats.
Variable load_calendar : string -> result Iex.CalendarSummary.

(** [pd.concat([chart_stats, calendar_stats])] *)
Definition row : Type := stats * Iex.CalendarSummary.

(** The body of the loop of [generate_stats]. *)
Definition collect_one (symbol : string) : traced row :=
  run _ <- call (LogCollecting symbol) (Ok tt) in
  run hist <- call (CallHistorical symbol) (load_historical symbol) in
  run chart_stats <- call (CallBacktest symbol) (run_backtest hist) in
  run calendar_stats <- call (CallCalendar symbol) (load_calendar symbol) in
  pure (chart_stats, calendar_stats).

(** The outcome of the body of the loop for one symbol, and the calls
    it makes: each call is made only when the one before returned. *)
Definition stats_for (symbol : string) : result row :=
  try hist <- load_historical symbol in
  try chart_stats <- run_backtest hist in
  try calendar_stats <- load_calendar symbol in
  Ok (chart_stats, calendar_stats).

Definition events_of (symbol : string) : list event :=
  [LogCollecting symbol; CallHistorical symbol]
  ++ match load_historical symbol with
     | Ok hist =>
         CallBacktest symbol
         :: match run_backtest hist with
            | Ok _ => [CallCalendar symbol]
            | Raise _ => []
            end
     | Raise _ => []
     end.

(** The calls of a whole run: those of each symbol in turn, up to and
    with the first symbol that raises. *)
Fixpoint calls_of (index : list string) : list event :=
  match index with
  | [] => []
  | symbol :: rest =>
      events_of symbol
      ++ match stats_for symbol with
         | Ok _ => calls_of rest
         | Raise _ => []
         end
  end.

(** [generate_stats(index)], consumed to its end: the rows yielded,
    in order. *)
Fixpoint generate_stats (index : list string) : traced (list row) :=
  match index with
  | [] => pure []
  | symbol :: rest =>
      run combined <- collect_one symbol in
      run others <- generate_stats rest in
      pure (combined :: others)
  end.

(** [pd.DataFrame(rows, index=symbols)]: the index must have one
    label per row. *)
Definition make_table (rows : list row) (symbols : list string)
  : result (Table row) :=
  if (length rows =? length symbols)%nat
  then Ok {| tbl_index := symbols; tbl_rows := rows |}
  else Raise ValueError.

Definition run_collection (symbols : list string) : traced (Table row) :=
  run rows <- generate_stats symbols in
  lift (make_table rows symbols).

(** [args.x if args.x else []] *)
Definition or_empty (x : option (list string)) : list string :=
  match x with
  | Some (a :: l) => a :: l
  | _ => []
  end.

(** [cmd_collect(args)] of [add_subparser_collect], [args.group] and
    [args.symbol] being [None] or the list of the values given. *)
Definition cmd_collect (sp500_symbols : result (list string))
  (default_symbols : list string) (group symbol : option (list string))
  : traced (Table row) :=
  run symbols <- lift (returned (load_symbol_list sp500_symbols
                                   (Some (or_empty group))
                                   (Some (or_empty symbol))
                                   default_symbols)) in
  run_collection symbols.

End Pipeline.

End Collector.

(** ** The estimator as the specification words it *)

Module Reference.

(** A candidate: a date of the input moved by 365 or by 730 days. *)
Definition candidate (ds : list datetime) (c : Z) : Prop :=
  exists d, In d ds /\
            (c = d + timedelta_days 365 \/ c = d + timedelta_days 730).

(** A candidate survives when its own projection one year later is
    strictly after today. *)
Definition survives (today c : Z) : Prop := today < c + timedelta_days 365.

(** The estimate: the earliest surviving candidate, no estimate when
    none survives. *)
Definition is_estimate (today : Z) (ds : list datetime) (r : option Z) : Prop :=
  match r with
  | Some c =>
      candidate ds c /\ survives today c /\
      forall c', candidate ds c' -> survives today c' -> c <= c'
  | None => forall c, candidate ds c -> ~ survives today c
  end.

(** The dates on which every sum the estimator forms is still a
    [datetime]: the latest is the date moved by 730 and again by 365
    days. *)
Definition representable (ds : list datetime) : Prop :=
  Forall (fun d => 0 <= d /\ d + timedelta_days 1095 <= datetime_max) ds.

(** The same estimate as a function: the least element of the list of
    the surviving candidates. *)
Definition candidates (ds : list datetime) : list Z :=
  map (fun d => d + timedelta_days 365) ds
  ++ map (fun d => d + timedelta_days 730) ds.

Definition estimate (today : Z) (ds : list datetime) : option Z :=
  match List.filter (fun c => today <? c + timedelta_days 365) (candidates ds) with
  | [] => None
  | c :: cs => Some (fold_left Z.min cs c)
  end.

(** The group that contributes: the first of "faves", "dji", "sp"
    found in [groups], none when there is no such entry. *)
Definition selected (groups : list string) : list string :=
  if Collector.py_in "faves" groups then ["faves"]
  else if Collector.py_in "dji" groups then ["dji"]
  else if Collector.py_in "sp" groups then ["sp"]
  else [].

End Reference.

(** ** Payloads used by the examples *)

Module Fixtures.

Import Iex.

(** A well-formed answer of the earnings endpoint with no record. *)
Definition no_earnings : earnings_payload :=
  [("symbol", FScalar (SStr (str "XYZ"))); ("earnings", FRecords [])].

(** An answer of the earnings endpoint without the key "earnings". *)
Definition empty_object : earnings_payload := [].

Definition no_dividends : dividends_payload := [].

(** Dividend records that carry no "exDate". *)
Definition dividends_without_exDate : dividends_payload :=
  [[("amount", SNum (1 # 2)); ("type", SStr (str "Dividend income"))]].

(** A symbol with no earnings record and no dividend record. *)
Definition quiet_api : Remote :=
  {| get_earnings := fun _ => Ok no_earnings;
     get_dividends := fun _ => Ok no_dividends |}.

Definition sample_earnings : earnings_payload :=
  [("symbol", FScalar (SStr (str "AAPL")));
   ("earnings",
    FRecords
      [[("actualEPS", SNum (234 # 100));
        ("EPSReportDate", SStr (str "2018-07-31"));
        ("fiscalEndDate", SStr (str "2018-06-30"))];
       [("actualEPS", SNum (273 # 100));
        ("EPSReportDate", SStr (str "2018-05-01"));
        ("fiscalEndDate", SStr (str "2018-03-31"))]])].

Definition sample_dividends : dividends_payload :=
  [[("exDate", SStr (str "2018-08-10"));
    ("paymentDate", SStr (str "2018-08-16"));
    ("recordDate", SStr (str "2018-08-13"));
    ("declaredDate", SStr (str "2018-07-31"));
    ("amount", SNum (73 # 100))];
   [("exDate", SStr (str "2018-05-11"));
    ("paymentDate", SStr (str "2018-05-17"));
    ("recordDate", SStr (str "2018-05-14"));
    ("declaredDate", SStr (str "2018-05-01"));
    ("amount", SNum (73 # 100))]].

Definition sample_api : Remote :=
  {| get_earnings := fun _ => Ok sample_earnings;
     get_dividends := fun _ => Ok sample_dividends |}.


(** One earnings record reported on [date], no dividend record. *)
Definition reported_on (date : string) : Remote :=
  {| get_earnings := fun _ =>
       Ok [("symbol", FScalar (SStr (str "XYZ")));
           ("earnings",
            FRecords [[("actualEPS", SNum (1 # 1));
                       ("EPSReportDate", SStr (str date));
                       ("fiscalEndDate", SStr (str date))]])];
     get_dividends := fun _ => Ok no_dividends |}.

(** Dividend records of which the latest has a null amount. *)
Definition dividends_null_amount : dividends_payload :=
  [[("exDate", SStr (str "2018-08-10"));
    ("paymentDate", SStr (str "2018-08-16"));
    ("recordDate", SStr (str "2018-08-13"));
    ("declaredDate", SStr (str "2018-07-31"));
    ("amount", SNull)];
   [("exDate", SStr (str "2018-05-11"));
    ("paymentDate", SStr (str "2018-05-17"));
    ("recordDate", SStr (str "2018-05-14"));
    ("declaredDate", SStr (str "2018-05-01"));
    ("amount", SNum (73 # 100))]].

(** Earnings on record, dividends without "exDate". *)
Definition earnings_only_api : Remote :=
  {| get_earnings := fun _ => Ok sample_earnings;
     get_dividends := fun _ => Ok dividends_without_exDate |}.

Definition sample_earnings_frame : DateFrame :=
  {| index := [ymd 2018 7 31; ymd 2018 5 1];
     data := [("actualEPS", [CVal (SNum (234 # 100)); CVal (SNum (273 # 100))]);
              ("fiscalEndDate", [CDate (ymd 2018 6 30); CDate (ymd 2018 3 31)])] |}.


(** An environment of the collector in which every call returns: the
    history and the statistics carry nothing. *)
Definition any_history (symbol : string) : result unit := Ok tt.
Definition any_backtest (hist : unit) : result unit := Ok tt.
Definition sample_calendar (symbol : string) : result CalendarSummary :=
  load_calendar (ymd 2018 9 1) (ymd 2018 9 1) sample_api symbol.

(** The same with a history that cannot be fetched for "bad". *)
Definition flaky_history (symbol : string) : result unit :=
  if String.eqb symbol "bad" then Raise ConnectionError else Ok tt.

End Fixtures.

(** ** collector.py: the ranking table and its cache *)

Module Weights.

(** What ends a call of [load_sp500_weights]: an [IOError], the only
    class its handler catches, or any other exception. *)
Inductive failure : Type :=
| IOError
| Other (e : exn).

Inductive io (A : Type) : Type :=
| Done (a : A)
| Failed (f : failure).

Arguments Done {A} a.
Arguments Failed {A} f.

(** The two files of the working directory that the function touches:
    the content of "sp500_weights.csv" and the text of "spx_page.html",
    [None] for a file that cannot be opened for reading, and whether
    the first can be written. The content of the cache file is its
    text, or what a model of the CSV functions takes it to be. *)
Record files {content : Type} : Type := {
  cache_file : option content;
  cache_writable : bool;
  page_file : option string
}.

Section Weights.

(** [table] is the frame of the ranking table. [read_csv] is
    [pd.read_csv] on the content of a file that opened, [scrape] is
    the reading of the saved page up to the three conversions of its
    columns, [to_csv] the content that [df.to_csv] writes. *)
Variable table : Type.
Context {content : Type}.
Variable read_csv : content -> result table.
Variable scrape : string -> result table.
Variable to_csv : table -> content.

Definition of_result {A : Type} (r : result A) : io A :=
  match r with
  | Ok a => Done a
  | Raise e => Failed (Other e)
  end.

(** [load_sp500_weights()], on the files [fs]: what it returns and the
    files it leaves. *)
Definition load_sp500_weights (fs : @files content)
  : io table * @files content :=
  match cache_file fs with
  | Some text => (of_result (read_csv text), fs)
  | None =>
      match page_file fs with
      | None => (Failed IOError, fs)
      | Some html =>
          match scrape html with
          | Raise e => (Failed (Other e), fs)
          | Ok df =>
              if cache_writable fs
              then (Done df,
                    {| cache_file := Some (to_csv df);
                       cache_writable := true;
                       page_file := page_file fs |})
              else (Failed IOError, fs)
          end
      end
  end.

End Weights.

End Weights.

(** ** collector.py: the cache file of the ranking table *)

Module Csv.

(** A cell of the ranking table: the text of the page, the float that
    the conversions of [load_sp500_weights] made of it ([NaN] for the
    float that is not a number), and what else [read_csv] may make of
    a column. *)
Inductive cell (float : Type) : Type :=
| Str (s : text)
| Float (x : float)
| Int (n : Z)
| Bool (b : bool)
| NaN.

Arguments Str {float} s.
Arguments Float {float} x.
Arguments Int {float} n.
Arguments Bool {float} b.
Arguments NaN {float}.

(** A frame with its default range index: named columns. *)
Definition frame (float : Type) : Type := list (text * list (cell float)).

(** The cache file, taken as the fields that [csv.writer] wrote and
    that the tokenizer of [read_csv] finds again: for each column the
    field of the header line and the fields of the lines below it. *)
Definition sheet : Type := list (text * list text).

Fixpoint column {A : Type} (name : text) (t : list (text * A)) : option A :=
  match t with
  | [] => None
  | (name', v) :: t' => if text_eqb name name' then Some v else column name t'
  end.

(** [str(n)] *)
Definition int_text (n : Z) : text := str (NilZero.string_of_int (Z.to_int n)).

Section Csv.

(** The floats and what the libraries do with their text: [repr(x)],
    which [to_csv] writes for a float; the fields that the parser of
    [read_csv] reads as an integer, as a float and as a boolean; the
    float of an integer; the fields that [read_csv] takes for a missing
    value by default. *)
Context {float : Type}.
Variable float_text : float -> text.
Variable read_int : text -> option Z.
Variable read_float : text -> option float.
Variable read_bool : text -> option bool.
Variable of_int : Z -> float.
Variable na_values : list text.

(** What [to_csv] writes for a cell; nothing for a missing value. *)
Definition field_of (c : cell float) : text :=
  match c with
  | Str s => s
  | Float x => float_text x
  | Int n => int_text n
  | Bool true => str "True"
  | Bool false => str "False"
  | NaN => []
  end.

Definition nrows (t : frame float) : nat :=
  match t with
  | [] => O
  | (_, cells) :: _ => length cells
  end.

(** [df.to_csv(cache_fn)]: the index goes first, under an empty
    name. *)
Definition to_csv (t : frame float) : sheet :=
  ([], map (fun i => int_text (Z.of_nat i)) (seq 0 (nrows t)))
  :: map (fun c => (fst c, map field_of (snd c))) t.

Definition is_na (f : text) : bool := existsb (text_eqb f) na_values.

(** One pass over the fields of a column with the converter of a type:
    a missing value for a field that stands for one, what the converter
    reads for any other, and no column when one field is not read. *)
Fixpoint convert {A : Type} (read : text -> option A) (fs : list text)
  : option (list (option A)) :=
  match fs with
  | [] => Some []
  | f :: fs' =>
      if is_na f then option_map (cons None) (convert read fs')
      else match read f with
           | Some a => option_map (cons (Some a)) (convert read fs')
           | None => None
           end
  end.

(** The column that [read_csv] builds from the fields: the first type
    of int64, float64, bool, object that reads every field; a column
    of integers with a missing value becomes a column of floats. *)
Definition read_column (fs : list text) : list (cell float) :=
  match convert read_int fs with
  | Some ns =>
      map (fun n => match n with
                    | Some n => if existsb is_na fs then Float (of_int n)
                                else Int n
                    | None => NaN
                    end) ns
  | None =>
      match convert read_float fs with
      | Some xs =>
          map (fun x => match x with Some x => Float x | None => NaN end) xs
      | None =>
          match convert read_bool fs with
          | Some bs =>
              map (fun b => match b with Some b => Bool b | None => NaN end) bs
          | None => map (fun f => if is_na f then NaN else Str f) fs
          end
      end
  end.

(** The name that [read_csv] gives the column at position [i]. *)
Definition column_name (i : nat) (name : text) : text :=
  match name with
  | [] => str "Unnamed: " ++ int_text (Z.of_nat i)
  | _ => name
  end.

Fixpoint read_columns (i : nat) (s : sheet) : frame float :=
  match s with
  | [] => []
  | (name, fs) :: s' =>
      (column_name i name, read_column fs) :: read_columns (S i) s'
  end.

(** [pd.read_csv(cache_fn)] on a file that opened. *)
Definition read_csv (s : sheet) : frame float := read_columns 0 s.

End Csv.

(** The fields that every release of pandas since 1.0 takes for a
    missing value. *)
Definition na_values : list text :=
  map str [EmptyString; "#N/A"; "#N/A N/A"; "#NA"; "-1.#IND"; "-1.#QNAN";
           "-NaN"; "-nan"; "1.#IND"; "1.#QNAN"; "<NA>"; "N/A"; "NA"; "NULL";
           "NaN"; "n/a"; "nan"; "null"].

(** *** A model of the floats for the examples

    The floats written with digits, a point and digits, each taken as
    that text and read back as it is written. *)

Fixpoint digits_value (acc : Z) (s : text) : option Z :=
  match s with
  | [] => Some acc
  | c :: s' =>
      match Iex.ascii_digit c with
      | Some d => digits_value (10 * acc + d) s'
      | None => None
      end
  end.

Definition plain_int (s : text) : option Z :=
  match s with
  | [] => None
  | _ => digits_value 0 s
  end.

Fixpoint split_point (s : text) : option (text * text) :=
  match s with
  | [] => None
  | Ch "." :: r => Some ([], r)
  | c :: r => option_map (fun p => (c :: fst p, snd p)) (split_point r)
  end.

Definition plain_of_int (n : Z) : text := int_text n ++ str ".0".

Definition plain_float (s : text) : option text :=
  match plain_int s with
  | Some n => Some (plain_of_int n)
  | None =>
      match split_point s with
      | Some (a, b) =>
          match plain_int a, plain_int b with
          | Some _, Some _ => Some s
          | _, _ => None
          end
      | None => None
      end
  end.

Definition plain_bool (s : text) : option bool :=
  if existsb (text_eqb s) (map str ["True"; "TRUE"; "true"]) then Some true
  else if existsb (text_eqb s) (map str ["False"; "FALSE"; "false"])
       then Some false
       else None.

(** A ranking table of two rows, the second with the ticker "NA". *)
Definition sample_table : frame text :=
  [(str "Company", [Str (str "Apple Inc."); Str (str "Nano Labs")]);
   (str "Symbol", [Str (str "AAPL"); Str (str "NA")]);
   (str "Weight", [Float (str "4.25"); Float (str "0.01")]);
   (str "Price", [Float (str "190.5"); Float (str "7.25")]);
   (str "Change", [Float (str "1.5"); Float (str "0.25")])].

End Csv.

(** ** Notions used to state further properties *)

Module Notions.

Import Iex.

(** The record [r] holds under the key [k] a text that reads as the
    date [t]. *)
Definition date_field (k : string) (r : record) (t : datetime) : Prop :=
  exists s, assoc k r = Some (SStr s) /\ strptime_ymd s = Ok t.

Definition has_date (k : string) (r : record) : Prop :=
  exists t, date_field k r t.

(** The three steps that both loaders apply to their frame: select the
    date columns, parse them, index by one of them. *)
Definition parse_and_index (cols : list string) (name : string)
  (df : DataFrame) : result DateFrame :=
  try sel <- getitem_cols df cols in
  try parsed <- applymap parsedate sel in
  set_index name (setitem_cols df parsed).

(** The date columns of [load_dividends]. *)
Definition dividend_date_cols : list string :=
  ["declaredDate"; "exDate"; "paymentDate"; "recordDate"].






(** The content of the default list of [load_symbol_list] after [n]
    calls in a row that leave [symbols] out and pass [groups]. *)
Fixpoint default_after_calls (sp : result (list string))
  (groups : list string) (n : nat) (default_symbols : list string)
  : list string :=
  match n with
  | O => default_symbols
  | S n' =>
      default_after_calls sp groups n'
        (Collector.default_after
           (Collector.load_symbol_list sp (Some groups) None default_symbols))
  end.

End Notions.

(** ** Facts about the Python layer *)

Section MonadFacts.

Context {A B : Type}.

Lemma mapM_total (f : A -> result B) (g : A -> B) (xs : list A) :
  Forall (fun x => f x = Ok (g x)) xs -> mapM f xs = Ok (map g xs).
Proof.
  induction 1 as [|x xs Hx _ IH]; simpl; [reflexivity|].
  rewrite Hx, IH. reflexivity.
Qed.

Lemma mapM_only_raises (f : A -> result B) (e0 : exn) (xs : list A) :
  (forall x e, f x = Raise e -> e = e0) ->
  forall e, mapM f xs = Raise e -> e = e0.
Proof.
  intros Hf. induction xs as [|x xs IH]; simpl; intros e He; [discriminate|].
  destruct (f x) as [y|e'] eqn:Hx; simpl in He.
  - destruct (mapM f xs) as [ys|e'']; simpl in He; [discriminate|].
    injection He as <-. apply IH. reflexivity.
  - injection He as <-. eapply Hf, Hx.
Qed.

Lemma mapM_Ok_inv (f : A -> result B) (xs : list A) (ys : list B) :
  mapM f xs = Ok ys -> Forall2 (fun x y => f x = Ok y) xs ys.
Proof.
  revert ys. induction xs as [|x xs IH]; simpl; intros ys H.
  - injection H as <-. constructor.
  - destruct (f x) as [y|e] eqn:Hx; simpl in H; [|discriminate].
    destruct (mapM f xs) as [ys'|e]; simpl in H; [|discriminate].
    injection H as <-. constructor; auto.
Qed.

Lemma filterM_total (p : A -> result bool) (q : A -> bool) (xs : list A) :
  Forall (fun x => p x = Ok (q x)) xs -> filterM p xs = Ok (List.filter q xs).
Proof.
  induction 1 as [|x xs Hx _ IH]; simpl; [reflexivity|].
  rewrite Hx, IH. simpl. destruct (q x); reflexivity.
Qed.

Lemma filterM_only_raises (p : A -> result bool) (e0 : exn) (xs : list A) :
  (forall x e, p x = Raise e -> e = e0) ->
  forall e, filterM p xs = Raise e -> e = e0.
Proof.
  intros Hp. induction xs as [|x xs IH]; simpl; intros e He; [discriminate|].
  destruct (p x) as [b|e'] eqn:Hx; simpl in He.
  - destruct (filterM p xs) as [ys|e'']; simpl in He; [discriminate|].
    injection He as <-. apply IH. reflexivity.
  - injection He as <-. eapply Hp, Hx.
Qed.

Lemma filterM_Ok_inv (p : A -> result bool) (xs ys : list A) :
  filterM p xs = Ok ys ->
  Forall (fun x => exists b, p x = Ok b) xs /\
  forall y, In y ys -> In y xs /\ p y = Ok true.
Proof.
  revert ys. induction xs as [|x xs IH]; simpl; intros ys H.
  - injection H as <-. split; [constructor|]. intros y [].
  - destruct (p x) as [b|e] eqn:Hx; simpl in H; [|discriminate].
    destruct (filterM p xs) as [ys'|e]; simpl in H; [|discriminate].
    injection H as <-. destruct (IH ys' eq_refl) as [Hall Hin]. split.
    + constructor; eauto.
    + intros y Hy. destruct b.
      * destruct Hy as [<-|Hy]; [auto|]. destruct (Hin y Hy). auto.
      * destruct (Hin y Hy). auto.
Qed.

End MonadFacts.

Lemma fold_min_le (xs : list Z) (x : Z) :
  fold_left Z.min xs x <= x /\
  forall y, In y xs -> fold_left Z.min xs x <= y.
Proof.
  revert x. induction xs as [|a xs IH]; simpl; intros x.
  - split; [lia|]. intros y [].
  - destruct (IH (Z.min x a)) as [H1 H2]. split; [lia|].
    intros y [<-|Hy]; [lia|auto].
Qed.

Lemma fold_min_In (xs : list Z) (x : Z) :
  fold_left Z.min xs x = x \/ In (fold_left Z.min xs x) xs.
Proof.
  revert x. induction xs as [|a xs IH]; simpl; intros x; [auto|].
  destruct (IH (Z.min x a)) as [H|H]; [|auto].
  rewrite H. destruct (Z.min_spec x a) as [[_ ->]|[_ ->]]; auto.
Qed.



Lemma py_min_spec (xs : list datetime) (m : datetime) :
  py_min xs = Ok m -> In m xs /\ forall y, In y xs -> m <= y.
Proof.
  destruct xs as [|x xs]; simpl; [discriminate|]. intros [= <-].
  destruct (fold_min_le xs x) as [H1 H2]. split.
  - destruct (fold_min_In xs x) as [->|H]; auto.
  - intros y [<-|Hy]; auto.
Qed.


Lemma dt_add_Ok (d k : Z) :
  0 <= d + k <= datetime_max -> dt_add d k = Ok (d + k).
Proof.
  intros H. unfold dt_add. cbv zeta.
  destruct (Z.leb_spec 0 (d + k)); [|lia].
  destruct (Z.leb_spec (d + k) datetime_max); [|lia]. reflexivity.
Qed.

Lemma dt_add_inv (d k : Z) (r : result datetime) :
  dt_add d k = r ->
  (r = Ok (d + k) /\ 0 <= d + k <= datetime_max) \/
  (r = Raise OverflowError /\ ~ 0 <= d + k <= datetime_max).
Proof.
  intros <-. unfold dt_add. cbv zeta.
  destruct (Z.leb_spec 0 (d + k)); destruct (Z.leb_spec (d + k) datetime_max);
    simpl; [left|right|right|right]; split; auto; lia.
Qed.

(** ** The date estimator *)

Section EstimateNext.

Import Reference.

Ltac days := unfold timedelta_days, datetime_max, MAXORDINAL, US_PER_DAY in *.

Lemma candidates_spec (ds : list datetime) (c : Z) :
  In c (candidates ds) <-> candidate ds c.
Proof.
  unfold candidates, candidate. rewrite in_app_iff, !in_map_iff. split.
  - intros [[d [<- Hd]]|[d [<- Hd]]]; exists d; auto.
  - intros [d [Hd [->| ->]]]; [left|right]; exists d; auto.
Qed.

(** The function and the relation of the reference agree. *)
Lemma estimate_is_estimate (today : Z) (ds : list datetime) :
  is_estimate today ds (estimate today ds).
Proof.
  unfold estimate.
  set (keep := fun c => today <? c + timedelta_days 365).
  assert (Hkeep : forall c, In c (List.filter keep (candidates ds)) <->
                            candidate ds c /\ survives today c).
  { intros c. rewrite filter_In, candidates_spec. unfold keep, survives.
    rewrite Z.ltb_lt. reflexivity. }
  destruct (List.filter keep (candidates ds)) as [|c cs] eqn:E; simpl.
  - intros c Hc Hs. apply (proj2 (Hkeep c)); auto.
  - destruct (py_min_spec (c :: cs) _ eq_refl) as [Hin Hle].
    apply Hkeep in Hin as [Hc Hs]. repeat split; auto.
    intros c' Hc' Hs'. apply Hle, Hkeep. auto.
Qed.

Lemma is_estimate_unique (today : Z) (ds : list datetime) (r1 r2 : option Z) :
  is_estimate today ds r1 -> is_estimate today ds r2 -> r1 = r2.
Proof.
  destruct r1 as [c1|], r2 as [c2|]; simpl.
  - intros (H1 & S1 & L1) (H2 & S2 & L2). f_equal.
    specialize (L1 c2 H2 S2). specialize (L2 c1 H1 S1). lia.
  - intros (H1 & S1 & _) H2. destruct (H2 c1 H1 S1).
  - intros H1 (H2 & S2 & _). destruct (H1 c2 H2 S2).
  - reflexivity.
Qed.

(** On representable dates no sum overflows and the code computes the
    reference function. *)
Lemma representable_sums (d : Z) :
  0 <= d -> d + timedelta_days 1095 <= datetime_max ->
  0 <= d + timedelta_days 365 <= datetime_max /\
  0 <= d + timedelta_days 730 <= datetime_max /\
  0 <= d + timedelta_days 365 + timedelta_days 365 <= datetime_max /\
  0 <= d + timedelta_days 730 + timedelta_days 365 <= datetime_max.
Proof. days. lia. Qed.

Lemma days_730_365 (d : Z) :
  d + timedelta_days 730 + timedelta_days 365 = d + timedelta_days 1095.
Proof. days. lia. Qed.

Lemma estimate_next_representable (today : datetime) (ds : list datetime) :
  representable ds -> Iex.estimate_next today ds = Ok (estimate today ds).
Proof.
  intros Hrep. unfold Iex.estimate_next, Iex.estimate_next_with, estimate, candidates.
  rewrite (mapM_total _ (fun d => d + timedelta_days 365)).
  2:{ eapply List.Forall_impl; [|exact Hrep]. intros d [H0 H1].
      apply dt_add_Ok. apply representable_sums; assumption. }
  rewrite (mapM_total _ (fun d => d + timedelta_days 730)).
  2:{ eapply List.Forall_impl; [|exact Hrep]. intros d [H0 H1].
      apply dt_add_Ok. apply representable_sums; assumption. }
  unfold bind at 1 2.
  rewrite (filterM_total _ (fun c => today <? c + timedelta_days 365)).
  2:{ apply List.Forall_forall. intros c Hc. apply candidates_spec in Hc.
      destruct Hc as [d [Hd Hc]].
      pose proof (proj1 (List.Forall_forall _ _) Hrep d Hd) as [H0 H1].
      destruct (representable_sums d H0 H1) as (_ & _ & H2 & H3).
      rewrite dt_add_Ok; [reflexivity|]. destruct Hc as [-> | ->]; assumption. }
  destruct (List.filter _ _) as [|c cs]; reflexivity.
Qed.

Lemma dt_add_raises (d k : Z) (e : exn) :
  dt_add d k = Raise e -> e = OverflowError.
Proof.
  intros H. destruct (dt_add_inv _ _ _ H) as [[H' _]|[H' _]]; congruence.
Qed.

(** A date of the input whose last projection is no [datetime] makes
    the call raise [OverflowError], which the handler of [ValueError]
    lets through. *)
Lemma estimate_next_overflow (today : datetime) (ds : list datetime) :
  Forall is_datetime ds -> ~ representable ds ->
  Iex.estimate_next today ds = Raise OverflowError.
Proof.
  intros Hval Hnot. unfold Iex.estimate_next, Iex.estimate_next_with.
  destruct (mapM _ ds) as [g365|e] eqn:E1; simpl.
  2:{ f_equal. eapply mapM_only_raises; [|exact E1].
      intros x e'. apply dt_add_raises. }
  destruct (mapM (fun i => dt_add i (timedelta_days 730)) ds) as [g730|e] eqn:E2;
    simpl.
  2:{ f_equal. eapply mapM_only_raises; [|exact E2].
      intros x e'. apply dt_add_raises. }
  destruct (filterM _ (g365 ++ g730)) as [kept|e] eqn:E3; simpl.
  2:{ assert (e = OverflowError) as ->; [|reflexivity].
      eapply filterM_only_raises; [|exact E3].
      intros x e'. simpl.
      destruct (dt_add x (timedelta_days 365)) eqn:Ex; simpl; [discriminate|].
      intros [= <-]. eapply dt_add_raises, Ex. }
  exfalso. apply Hnot.
  apply filterM_Ok_inv in E3 as [Hall _].
  apply mapM_Ok_inv in E2.
  apply List.Forall_forall. intros d Hd.
  pose proof (proj1 (List.Forall_forall _ _) Hval d Hd) as [H0 _].
  split; [exact H0|].
  assert (Hg : In (d + timedelta_days 730) g730).
  { clear - E2 Hd. induction E2 as [|x y xs ys Hxy _ IH]; [destruct Hd|].
    destruct Hd as [->|Hd]; [|right; auto].
    left. destruct (dt_add_inv _ _ _ Hxy) as [[H _]|[H _]]; congruence. }
  pose proof (proj1 (List.Forall_forall _ _) Hall (d + timedelta_days 730)) as Hp.
  destruct Hp as [b Hb]; [apply in_app_iff; auto|]. simpl in Hb.
  destruct (dt_add (d + timedelta_days 730) (timedelta_days 365)) eqn:Ex;
    simpl in Hb; [|discriminate].
  destruct (dt_add_inv _ _ _ Ex) as [[_ H]|[H _]]; [|discriminate].
  rewrite <- days_730_365. apply H.
Qed.

(** Whatever the input, an estimate that is returned passed the filter:
    its projection one year later is after today. *)
Lemma estimate_next_Some (today : datetime) (ds : list datetime) (x : datetime) :
  Iex.estimate_next today ds = Ok (Some x) ->
  today < x + timedelta_days 365.
Proof.
  unfold Iex.estimate_next, Iex.estimate_next_with.
  destruct (mapM _ ds) as [g365|e]; simpl; [|discriminate].
  destruct (mapM _ ds) as [g730|e]; simpl; [|discriminate].
  destruct (filterM _ (g365 ++ g730)) as [kept|e] eqn:E3; simpl.
  2:{ destruct e; discriminate. }
  destruct (py_min kept) as [m|e] eqn:Em; simpl.
  2:{ destruct e; discriminate. }
  intros [= <-].
  apply py_min_spec in Em as [Hin _].
  apply filterM_Ok_inv in E3 as [_ Hkept].
  destruct (Hkept m Hin) as [_ Hp]. simpl in Hp.
  destruct (dt_add m (timedelta_days 365)) eqn:Ex; simpl in Hp; [|discriminate].
  destruct (dt_add_inv _ _ _ Ex) as [[H _]|[H _]]; [|discriminate].
  injection H as ->. injection Hp as Hp. apply Z.ltb_lt in Hp. exact Hp.
Qed.

(** C1 (amended). On every list of dates whose projections are all
    representable (each date at most [datetime.max] less 1095 days)
    [estimate_next] returns, and what it returns is the reference
    estimate: the earliest of the candidates d+365 days and d+730 days
    whose own +365 days is strictly after today, or no estimate when
    no candidate survives; on the empty list it returns no estimate;
    on [2023-02-01] with today 2024-06-01 it returns 2024-02-01. A
    date later than that bound makes it raise [OverflowError]. *)
Theorem estimate_next_refines_reference :
  (forall today ds, representable ds ->
     forall r, Iex.estimate_next today ds = Ok r <-> is_estimate today ds r) /\
  (forall today, Iex.estimate_next today [] = Ok None) /\
  Iex.estimate_next (ymd 2024 6 1) [ymd 2023 2 1] = Ok (Some (ymd 2024 2 1)) /\
  (forall today ds, Forall is_datetime ds -> ~ representable ds ->
     Iex.estimate_next today ds = Raise OverflowError).
Proof.
  split; [|split; [|split]].
  - intros today ds Hrep r.
    rewrite (estimate_next_representable today ds Hrep). split.
    + intros [= <-]. apply estimate_is_estimate.
    + intros Hr. f_equal.
      eapply is_estimate_unique; [apply estimate_is_estimate|exact Hr].
  - reflexivity.
  - vm_compute. reflexivity.
  - apply estimate_next_overflow.
Qed.

Lemma representable_2023_02_01 : representable [ymd 2023 2 1].
Proof.
  constructor; [|constructor].
  split; vm_compute; discriminate.
Defined.

Lemma estimate_next_refines_reference_witness :
  representable [ymd 2023 2 1] /\
  (Iex.estimate_next (ymd 2024 6 1) [ymd 2023 2 1] = Ok (Some (ymd 2024 2 1)) <->
   is_estimate (ymd 2024 6 1) [ymd 2023 2 1] (Some (ymd 2024 2 1))).
Proof.
  split; [exact representable_2023_02_01|].
  apply (proj1 estimate_next_refines_reference (ymd 2024 6 1) [ymd 2023 2 1]
           representable_2023_02_01).
Defined.

(** C1 as first stated fails: a date of the last years of the
    calendar is a [datetime], and on it the call raises. *)
Lemma estimate_next_raises_near_max :
  is_datetime (ymd 9999 1 1) /\
  Iex.estimate_next (ymd 2024 6 1) [ymd 9999 1 1] = Raise OverflowError.
Proof.
  split; [split; vm_compute; discriminate|].
  vm_compute. reflexivity.
Qed.

(** C6 (amended). For every non-empty list of dates, what
    [estimate_next] returns is no estimate or a date strictly after
    today less 365 days; it does return when the projections of the
    dates are representable. *)
Theorem estimate_next_within_a_year (today : datetime) (ds : list datetime) :
  ds <> [] ->
  (representable ds -> exists r, Iex.estimate_next today ds = Ok r) /\
  (forall r, Iex.estimate_next today ds = Ok r ->
     r = None \/ exists x, r = Some x /\ today - timedelta_days 365 < x).
Proof.
  intros _. split.
  - intros Hrep. eexists. apply estimate_next_representable, Hrep.
  - intros [x|] Hr; [right|left; reflexivity].
    exists x. split; [reflexivity|].
    apply estimate_next_Some in Hr. lia.
Qed.

Lemma estimate_next_within_a_year_witness :
  exists r, Iex.estimate_next (ymd 2024 6 1) [ymd 2023 2 1] = Ok r /\
            (r = None \/
             exists x, r = Some x /\ ymd 2024 6 1 - timedelta_days 365 < x).
Proof.
  assert (Hne : [ymd 2023 2 1] <> []) by discriminate.
  destruct (estimate_next_within_a_year (ymd 2024 6 1) [ymd 2023 2 1] Hne)
    as [Hret Hbound].
  destruct (Hret representable_2023_02_01) as [r Hr].
  exists r. split; [exact Hr|]. apply Hbound, Hr.
Defined.

(** C6 as first stated fails: the estimate of the example of the
    specification lies four months before today. *)
Lemma estimate_next_older_than_a_day :
  Iex.estimate_next (ymd 2024 6 1) [ymd 2023 2 1] = Ok (Some (ymd 2024 2 1)) /\
  ~ (ymd 2024 6 1 - timedelta_days 1 < ymd 2024 2 1).
Proof.
  split; [vm_compute; reflexivity|].
  vm_compute. intros H. discriminate H.
Qed.

End EstimateNext.

(** ** The estimator on the index of a frame *)

Section EstimateIndex.

Import Reference Notions.








(** Either [+] answers the sum or raises. *)
Lemma index_add_sum (idx : list datetime) (d k r : Z) :
  Iex.index_add idx d k = Ok r -> r = d + k.
Proof.
  unfold Iex.index_add, ts_add, dt_add. cbv zeta.
  destruct (forallb is_timestamp idx).
  - destruct (is_timestamp (d + k)); [|discriminate]. intros [= <-]. reflexivity.
  - destruct (_ && _); [|discriminate]. intros [= <-]. reflexivity.
Qed.

End EstimateIndex.

(** ** The event loaders and the calendar builder *)

Section Loaders.

Import Iex.

Example strptime_padded : strptime_ymd (str "2018-02-01") = Ok (ymd 2018 2 1).
Proof. vm_compute. reflexivity. Qed.

Example strptime_unpadded : strptime_ymd (str "2018-2-1") = Ok (ymd 2018 2 1).
Proof. vm_compute. reflexivity. Qed.

Example strptime_no_such_day :
  strptime_ymd (str "2018-02-30") = Raise ValueError.
Proof. vm_compute. reflexivity. Qed.

Example strptime_text_remains :
  strptime_ymd (str "2018-12-311") = Raise ValueError.
Proof. vm_compute. reflexivity. Qed.

(** The four digits of the year and the second digit of a day from 10
    to 29 may be any decimal digit: here the Arabic-Indic 8 and 9
    (U+0668, U+0669). *)
Example strptime_any_decimal_digit :
  strptime_ymd (str "201" ++ [Nd 1640 8] ++ str "-12-2" ++ [Nd 1641 9])
  = Ok (ymd 2018 12 29).
Proof. vm_compute. reflexivity. Qed.

(** The other digits are ASCII: a fullwidth 0 (U+FF10) is no month. *)
Example strptime_month_is_ascii :
  strptime_ymd (str "2018-" ++ [Nd 65296 0] ++ str "7-31") = Raise ValueError.
Proof. vm_compute. reflexivity. Qed.

Example parsedate_wants_str : parsedate CNaN = Raise TypeError.
Proof. reflexivity. Qed.

Example last_day_is_max : ymd2ord 9999 12 31 = MAXORDINAL.
Proof. vm_compute. reflexivity. Qed.

Lemma assoc_In {A : Type} (k : string) (l : list (string * A)) (v : A) :
  assoc k l = Some v -> In (k, v) l.
Proof.
  induction l as [|[k' v'] l IH]; simpl; [discriminate|].
  destruct (String.eqb_spec k k') as [->|Hne].
  - intros [= ->]. left. reflexivity.
  - intros H. right. apply IH, H.
Qed.

Lemma has_key_assoc {A : Type} (k : string) (l : list (string * A)) :
  has_key k l = true <-> exists v, assoc k l = Some v.
Proof.
  unfold has_key. induction l as [|[k' v'] l IH]; simpl.
  - split; [discriminate|]. intros [v Hv]. discriminate.
  - destruct (String.eqb_spec k k') as [->|Hne]; simpl.
    + split; eauto.
    + exact IH.
Qed.

Lemma assoc_rectangular (n : nat) (cols : list (string * list cell))
  (k : string) (v : list cell) :
  rectangular n cols -> assoc k cols = Some v -> length v = n.
Proof.
  intros Hrect Hk. apply assoc_In in Hk.
  apply (proj1 (List.Forall_forall _ _) Hrect (k, v) Hk).
Qed.

Lemma mapM_length {A B : Type} (f : A -> result B) (xs : list A) (ys : list B) :
  mapM f xs = Ok ys -> length ys = length xs.
Proof.
  intros H. apply mapM_Ok_inv in H.
  induction H; simpl; congruence.
Qed.

Lemma convert_column_length (cs : list cell) :
  length (convert_column cs) = length cs.
Proof.
  unfold convert_column.
  destruct (existsb is_object_cell cs); [reflexivity|].
  destruct (existsb is_float_cell cs); [apply length_map|reflexivity].
Qed.

(** The conversion changes no cell that holds text, and leaves a cell
    without text without text: [parsedate] sees no difference. *)
Lemma parsedate_null_to_nan (c : cell) :
  parsedate (null_to_nan c) = parsedate c.
Proof. destruct c as [|[| | |s]|]; reflexivity. Qed.

Lemma mapM_parsedate_convert (cs : list cell) :
  mapM parsedate (convert_column cs) = mapM parsedate cs.
Proof.
  unfold convert_column.
  destruct (existsb is_object_cell cs); [reflexivity|].
  destruct (existsb is_float_cell cs); [|reflexivity].
  induction cs as [|c cs IH]; [reflexivity|].
  cbn [map mapM]. rewrite parsedate_null_to_nan, IH. reflexivity.
Qed.

Lemma frame_of_records_rectangular (rs : list record) :
  rectangular (length rs) (columns (frame_of_records rs)).
Proof.
  unfold rectangular, frame_of_records. simpl.
  apply List.Forall_forall. intros cv Hcv.
  apply in_map_iff in Hcv as [c [<- _]]. simpl.
  rewrite convert_column_length. apply length_map.
Qed.

Lemma getitem_cols_rectangular (n : nat) (df : DataFrame) (cols : list string)
  (sel : list (string * list cell)) :
  rectangular n (columns df) -> getitem_cols df cols = Ok sel ->
  rectangular n sel.
Proof.
  intros Hrect H. apply mapM_Ok_inv in H.
  induction H as [|c cv cs sel' Hc _ IH]; [constructor|].
  constructor; [|exact IH].
  destruct (assoc c (columns df)) as [v|] eqn:E; [|discriminate].
  injection Hc as <-. simpl. exact (assoc_rectangular _ _ _ _ Hrect E).
Qed.

Lemma applymap_rectangular (n : nat) (f : cell -> result cell)
  (sel parsed : list (string * list cell)) :
  rectangular n sel -> applymap f sel = Ok parsed -> rectangular n parsed.
Proof.
  intros Hrect H. apply mapM_Ok_inv in H.
  induction H as [|cv cv' sel' parsed' Hcv _ IH]; [constructor|].
  constructor.
  - destruct (mapM f (snd cv)) as [v|] eqn:E; simpl in Hcv; [|discriminate].
    injection Hcv as <-. simpl. apply mapM_length in E. rewrite E.
    inversion Hrect; assumption.
  - apply IH. inversion Hrect; assumption.
Qed.

Lemma setitem_cols_rectangular (n : nat) (df : DataFrame)
  (sel : list (string * list cell)) :
  rectangular n (columns df) -> rectangular n sel ->
  rectangular n (columns (setitem_cols df sel)).
Proof.
  intros Hdf Hsel. unfold setitem_cols. simpl.
  induction Hdf as [|cv cols Hcv _ IH]; simpl; [constructor|].
  constructor; [|exact IH].
  destruct (assoc (fst cv) sel) as [v|] eqn:E; simpl; [|exact Hcv].
  exact (assoc_rectangular _ _ _ _ Hsel E).
Qed.

Lemma set_index_rectangular (n : nat) (name : string) (df : DataFrame)
  (d : DateFrame) :
  rectangular n (columns df) -> set_index name df = Ok d ->
  length (index d) = n /\ rectangular n (data d).
Proof.
  intros Hrect. unfold set_index.
  destruct (assoc name (columns df)) as [cells|] eqn:E; [|discriminate].
  destruct (mapM as_datetime cells) as [ds|] eqn:Eds; simpl; [|discriminate].
  intros [= <-]. simpl. split.
  - apply mapM_length in Eds. rewrite Eds.
    exact (assoc_rectangular _ _ _ _ Hrect E).
  - apply List.Forall_forall. intros cv Hcv. apply filter_In in Hcv as [Hcv _].
    apply (proj1 (List.Forall_forall _ _) Hrect cv Hcv).
Qed.



(** [load_earnings] has no way to answer [None], and the frame it
    returns has at least one row. *)
Lemma load_earnings_frame (api : Remote) (symbol : string)
  (r : option DateFrame) :
  load_earnings api symbol = Ok r -> exists e, r = Some e /\ index e <> [].
Proof.
  unfold load_earnings.
  destruct (get_earnings api symbol) as [payload|]; cbn [bind]; [|discriminate].
  destruct (assoc "earnings" payload) as [x|]; cbn [bind]; [|discriminate].
  assert (Hdf : forall df, frame_of_field x = Ok df ->
                           exists rs, df = frame_of_records rs).
  { intros df. destruct x as [[| | |]|rs]; simpl; intros [= <-]; eauto. }
  destruct (frame_of_field x) as [df|]; cbn [bind]; [|discriminate].
  destruct (Hdf df eq_refl) as [rs ->].
  pose proof (frame_of_records_rectangular rs) as Hrect.
  destruct (getitem_cols _ _) as [sel|] eqn:Esel; cbn [bind]; [|discriminate].
  destruct (applymap parsedate sel) as [parsed|] eqn:Epar; cbn [bind]; [|discriminate].
  destruct (set_index _ _) as [e|] eqn:Eidx; cbn [bind]; [|discriminate].
  intros [= <-]. exists e. split; [reflexivity|].
  eapply set_index_rectangular in Eidx as [Hlen _].
  2:{ apply setitem_cols_rectangular; [exact Hrect|].
      eapply applymap_rectangular; [|exact Epar].
      eapply getitem_cols_rectangular; [exact Hrect|exact Esel]. }
  destruct rs as [|r0 rs]; [discriminate Esel|].
  destruct (index e); [discriminate Hlen|discriminate].
Qed.

Lemma select_hit {A : Type} (label : datetime) (idx : list datetime)
  (cs : list A) :
  In label idx -> length cs = length idx -> select label idx cs <> [].
Proof.
  revert cs. induction idx as [|i idx IH]; intros cs Hin Hlen; [destruct Hin|].
  destruct cs as [|c cs]; [discriminate|]. simpl.
  destruct (Z.eqb_spec i label) as [_|Hne]; [discriminate|].
  destruct Hin as [Hi|Hin]; [contradiction|].
  apply IH; [exact Hin|]. simpl in Hlen. congruence.
Qed.

(** [df.loc[label, col]] is defined when the column exists and the
    label is in the index. *)
Lemma loc_defined (d : DateFrame) (label : datetime) (col : string) :
  rectangular (length (index d)) (data d) ->
  has_key col (data d) = true -> In label (index d) ->
  exists v, loc d label col = Ok v.
Proof.
  intros Hrect Hcol Hin. apply has_key_assoc in Hcol as [cells Hcells].
  unfold loc. rewrite Hcells.
  pose proof (assoc_rectangular _ _ _ _ Hrect Hcells) as Hlen.
  pose proof (select_hit label (index d) cells Hin Hlen) as Hne.
  destruct (select label (index d) cells) as [|c [|c' cs]]; [congruence| |];
    eauto.
Qed.

Lemma assoc_getitem_cols (df : DataFrame) (cols : list string)
  (sel : list (string * list cell)) (k : string) :
  getitem_cols df cols = Ok sel -> In k cols ->
  exists v, assoc k sel = Some v /\ assoc k (columns df) = Some v.
Proof.
  intros H. apply mapM_Ok_inv in H.
  induction H as [|c cv cs sel' Hc _ IH]; intros Hin; [destruct Hin|].
  destruct (assoc c (columns df)) as [v|] eqn:E; [|discriminate].
  injection Hc as <-. simpl.
  destruct (String.eqb_spec k c) as [->|Hne]; [eauto|].
  destruct Hin as [<-|Hin]; [congruence|auto].
Qed.

Lemma assoc_applymap (f : cell -> result cell)
  (sel parsed : list (string * list cell)) (k : string) (v : list cell) :
  applymap f sel = Ok parsed -> assoc k sel = Some v ->
  exists v', assoc k parsed = Some v' /\ mapM f v = Ok v'.
Proof.
  intros H. apply mapM_Ok_inv in H.
  induction H as [|[c w] cv' sel' parsed' Hcv _ IH]; simpl; [discriminate|].
  simpl in Hcv.
  destruct (mapM f w) as [w'|] eqn:E; simpl in Hcv; [|discriminate].
  injection Hcv as <-. simpl.
  destruct (String.eqb_spec k c) as [->|Hne]; [|exact IH].
  intros [= <-]. eauto.
Qed.

Lemma assoc_setitem_cols (df : DataFrame) (sel : list (string * list cell))
  (k : string) (v0 v : list cell) :
  assoc k (columns df) = Some v0 -> assoc k sel = Some v ->
  assoc k (columns (setitem_cols df sel)) = Some v.
Proof.
  intros H0 Hsel. unfold setitem_cols. simpl.
  induction (columns df) as [|[c w] cols IH]; simpl in *; [discriminate|].
  destruct (String.eqb_spec k c) as [->|Hne].
  - rewrite Hsel. simpl. rewrite String.eqb_refl. reflexivity.
  - assert (Hk : String.eqb k c = false) by (apply String.eqb_neq, Hne).
    destruct (assoc c sel); simpl; rewrite Hk; apply IH, H0.
Qed.

Lemma parsed_cells_are_dates (cells cells' : list cell) :
  mapM parsedate cells = Ok cells' ->
  exists ds, mapM as_datetime cells' = Ok ds.
Proof.
  intros H. apply mapM_Ok_inv in H.
  induction H as [|c c' cs cs' Hc _ [ds IH]]; simpl; [eauto|].
  destruct c as [|[| | |str]|]; simpl in Hc; try discriminate.
  destruct (strptime_ymd str); simpl in Hc; [|discriminate].
  injection Hc as <-. simpl. rewrite IH. simpl. eauto.
Qed.

(** [set_index] on a column that [parsedate] has just filled finds
    dates only: in the loaders it never raises. *)
Lemma set_index_dates (df : DataFrame) (cols : list string)
  (sel parsed : list (string * list cell)) (name : string) :
  getitem_cols df cols = Ok sel -> applymap parsedate sel = Ok parsed ->
  In name cols ->
  exists d, set_index name (setitem_cols df parsed) = Ok d.
Proof.
  intros Hsel Hpar Hin.
  destruct (assoc_getitem_cols _ _ _ _ Hsel Hin) as (v & Hv & Hdf).
  destruct (assoc_applymap _ _ _ _ _ Hpar Hv) as (v' & Hv' & Hmap).
  destruct (parsed_cells_are_dates _ _ Hmap) as [ds Hds].
  unfold set_index.
  rewrite (assoc_setitem_cols df parsed name v v' Hdf Hv').
  rewrite Hds. simpl. eauto.
Qed.

(** The sibling check of [load_dividends]: without a column "exDate"
    (no record at all, or records without that key) it answers
    [None]. *)
Lemma load_dividends_absent (api : Remote) (symbol : string)
  (rs : dividends_payload) :
  get_dividends api symbol = Ok rs ->
  has_key "exDate" (columns (frame_of_records rs)) = false ->
  load_dividends api symbol = Ok None.
Proof.
  intros Hget Hno. unfold load_dividends. rewrite Hget. cbn [bind].
  rewrite Hno. reflexivity.
Qed.

(** [load_earnings] raises [KeyError] whenever the answer has no
    record: no column can be selected from the empty frame. *)
Lemma load_earnings_no_records (api : Remote) (symbol : string)
  (payload : earnings_payload) :
  get_earnings api symbol = Ok payload ->
  assoc "earnings" payload = Some (FRecords []) ->
  load_earnings api symbol = Raise KeyError.
Proof.
  intros Hget Hrs. unfold load_earnings. rewrite Hget. cbn [bind].
  rewrite Hrs. reflexivity.
Qed.

Lemma load_earnings_no_key (api : Remote) (symbol : string)
  (payload : earnings_payload) :
  get_earnings api symbol = Ok payload ->
  assoc "earnings" payload = None ->
  load_earnings api symbol = Raise KeyError.
Proof.
  intros Hget Hrs. unfold load_earnings. rewrite Hget. cbn [bind].
  rewrite Hrs. reflexivity.
Qed.

Import Fixtures.

(** C2. Where the claim asks for an absence, [load_earnings] raises:
    on a well-formed answer with zero earnings records, and on an
    answer without the key "earnings", it raises [KeyError].
    [load_dividends] does answer [None], on no record and on records
    without "exDate". *)
Theorem load_earnings_raises_where_dividends_absent :
  (forall symbol, load_earnings quiet_api symbol = Raise KeyError) /\
  (forall symbol,
     load_earnings {| get_earnings := fun _ => Ok empty_object;
                      get_dividends := fun _ => Ok no_dividends |} symbol
     = Raise KeyError) /\
  (forall symbol, load_dividends quiet_api symbol = Ok None) /\
  (forall symbol, load_dividends earnings_only_api symbol = Ok None).
Proof.
  split; [|split; [|split]]; intros symbol.
  - eapply load_earnings_no_records; reflexivity.
  - eapply load_earnings_no_key; reflexivity.
  - eapply load_dividends_absent; reflexivity.
  - eapply load_dividends_absent; reflexivity.
Qed.

(** C3. For a symbol with zero earnings records and zero dividend
    records [load_calendar] returns no summary: the [KeyError] of
    [load_earnings] ends the call before the dividends are asked
    for. *)
Theorem load_calendar_raises_without_records :
  forall today_eps today_ex symbol,
    load_calendar today_eps today_ex quiet_api symbol = Raise KeyError.
Proof.
  intros today_eps today_ex symbol. unfold load_calendar.
  rewrite (load_earnings_no_records quiet_api symbol no_earnings);
    reflexivity.
Qed.


(** The same symbol without a dividend frame. *)
Example load_calendar_earnings_only :
  load_calendar (ymd 2018 9 1) (ymd 2018 9 1) earnings_only_api "AAPL"
  = Ok {| lastEPSReportDate := Some (ymd 2018 7 31);
          nextEPSReportDate := Some (ymd 2019 5 1);
          lastExDate := None;
          lastDividend := None;
          nextExDate := None |}.
Proof. vm_compute. reflexivity. Qed.

End Loaders.

(** ** The collection pipeline *)

Section PipelineFacts.

Import Collector.

Context {hist stats : Type}.
Variable load_historical : string -> result hist.
Variable run_backtest : hist -> result stats.
Variable load_calendar : string -> result Iex.CalendarSummary.

Local Abbreviation row := (@Collector.row stats).
Local Abbreviation stats_for := (stats_for load_historical run_backtest load_calendar).
Local Abbreviation events_of := (events_of load_historical run_backtest).
Local Abbreviation calls_of := (calls_of load_historical run_backtest load_calendar).
Local Abbreviation collect_one := (collect_one load_historical run_backtest load_calendar).
Local Abbreviation generate_stats :=
  (generate_stats load_historical run_backtest load_calendar).
Local Abbreviation run_collection :=
  (run_collection load_historical run_backtest load_calendar).
Local Abbreviation cmd_collect := (cmd_collect load_historical run_backtest load_calendar).

(** One turn of the loop: its outcome, and its calls added to the
    log. *)
Lemma collect_one_run (symbol : string) (tr : list event) :
  collect_one symbol tr = (stats_for symbol, tr ++ events_of symbol).
Proof.
  unfold Collector.collect_one, Collector.stats_for, Collector.events_of,
    and_then, call, pure.
  destruct (load_historical symbol) as [h|e]; cbn [bind].
  2:{ rewrite <- !app_assoc. reflexivity. }
  destruct (run_backtest h) as [c|e]; cbn [bind].
  2:{ rewrite <- !app_assoc. reflexivity. }
  destruct (load_calendar symbol) as [cal|e]; cbn [bind];
    rewrite <- !app_assoc; reflexivity.
Qed.

Lemma generate_stats_run (index : list string) (tr : list event) :
  generate_stats index tr = (mapM stats_for index, tr ++ calls_of index).
Proof.
  revert tr. induction index as [|symbol rest IH]; intros tr.
  - simpl. unfold pure. rewrite app_nil_r. reflexivity.
  - cbn [Collector.generate_stats Collector.calls_of mapM].
    unfold and_then at 1. rewrite collect_one_run.
    destruct (stats_for symbol) as [r|e]; cbn [bind].
    + unfold and_then. rewrite IH.
      destruct (mapM stats_for rest) as [rs|e]; cbn [bind]; unfold pure;
        rewrite <- app_assoc; reflexivity.
    + rewrite app_nil_r. reflexivity.
Qed.

Lemma run_collection_run (symbols : list string) (tr : list event) :
  run_collection symbols tr
  = (try rows <- mapM stats_for symbols in make_table rows symbols,
     tr ++ calls_of symbols).
Proof.
  unfold Collector.run_collection, and_then. rewrite generate_stats_run.
  destruct (mapM stats_for symbols); reflexivity.
Qed.

Lemma events_of_returned (symbol : string) (r : row) :
  stats_for symbol = Ok r -> events_of symbol = all_calls symbol.
Proof.
  unfold Collector.stats_for, Collector.events_of, all_calls.
  destruct (load_historical symbol) as [h|e]; cbn [bind]; [|discriminate].
  destruct (run_backtest h) as [c|e]; cbn [bind]; [|discriminate].
  reflexivity.
Qed.

(** A symbol that raises made some of its four calls, in their order,
    and not all of them unless the last one raised. *)
Lemma events_of_symbol (symbol : string) :
  Forall (fun ev => event_symbol ev = symbol) (events_of symbol) /\
  exists rest, all_calls symbol = events_of symbol ++ rest.
Proof.
  unfold Collector.events_of, all_calls.
  destruct (load_historical symbol) as [h|e].
  - destruct (run_backtest h) as [c|e].
    + split; [repeat constructor|]. exists []. reflexivity.
    + split; [repeat constructor|]. exists [CallCalendar symbol]. reflexivity.
  - split; [repeat constructor|].
    exists [CallBacktest symbol; CallCalendar symbol]. reflexivity.
Qed.

Lemma mapM_returned (symbols : list string) :
  (forall x, In x symbols -> exists r, stats_for x = Ok r) ->
  exists rows, mapM stats_for symbols = Ok rows /\
               length rows = length symbols /\
               calls_of symbols = flat_map all_calls symbols.
Proof.
  induction symbols as [|symbol rest IH]; intros Hok.
  - exists []. repeat split.
  - destruct (Hok symbol) as [r Hr]; [left; reflexivity|].
    destruct IH as (rows & Hrows & Hlen & Hcalls).
    { intros x Hx. apply Hok. right. exact Hx. }
    exists (r :: rows). cbn [mapM Collector.calls_of flat_map].
    rewrite Hr, Hrows, Hcalls, (events_of_returned _ _ Hr). cbn [bind].
    simpl. repeat split. congruence.
Qed.

Lemma mapM_first_failure (pre post : list string) (symbol : string) (e : exn) :
  (forall x, In x pre -> exists r, stats_for x = Ok r) ->
  stats_for symbol = Raise e ->
  mapM stats_for (pre ++ symbol :: post) = Raise e /\
  calls_of (pre ++ symbol :: post)
  = flat_map all_calls pre ++ events_of symbol.
Proof.
  intros Hok Hfail. induction pre as [|x pre IH].
  - cbn [app mapM Collector.calls_of flat_map]. rewrite Hfail. cbn [bind].
    rewrite app_nil_r. split; reflexivity.
  - destruct (Hok x) as [r Hr]; [left; reflexivity|].
    destruct IH as [Hmap Hcalls].
    { intros y Hy. apply Hok. right. exact Hy. }
    cbn [app mapM Collector.calls_of flat_map].
    rewrite Hr, Hmap, Hcalls, (events_of_returned _ _ Hr). cbn [bind].
    split; [reflexivity|]. rewrite <- app_assoc. reflexivity.
Qed.

Lemma make_table_returned (rows : list row) (symbols : list string) :
  length rows = length symbols ->
  make_table rows symbols = Ok {| tbl_index := symbols; tbl_rows := rows |}.
Proof.
  intros H. unfold make_table. rewrite H, Nat.eqb_refl. reflexivity.
Qed.

(** When every symbol of the sequence can be collected the table has
    the sequence as its index and one row per element of it. *)
Lemma run_collection_returned (symbols : list string) (tr : list event) :
  (forall x, In x symbols -> exists r, stats_for x = Ok r) ->
  exists rows,
    run_collection symbols tr
    = (Ok {| tbl_index := symbols; tbl_rows := rows |},
       tr ++ flat_map all_calls symbols) /\
    length rows = length symbols.
Proof.
  intros Hok. destruct (mapM_returned symbols Hok) as (rows & Hrows & Hlen & Hc).
  exists rows. rewrite run_collection_run, Hrows, Hc. cbn [bind].
  rewrite (make_table_returned _ _ Hlen). split; [reflexivity|exact Hlen].
Qed.

(** The run when [symbol] is the first of the sequence to raise. *)
Lemma run_collection_first_failure
  (pre post : list string) (symbol : string) (e : exn) (tr : list event) :
  (forall x, In x pre -> exists r, stats_for x = Ok r) ->
  stats_for symbol = Raise e ->
  generate_stats (pre ++ symbol :: post) tr
  = (Raise e, tr ++ flat_map all_calls pre ++ events_of symbol) /\
  run_collection (pre ++ symbol :: post) tr
  = (Raise e, tr ++ flat_map all_calls pre ++ events_of symbol).
Proof.
  intros Hok Hfail.
  destruct (mapM_first_failure pre post symbol e Hok Hfail) as [Hmap Hcalls].
  split.
  - rewrite generate_stats_run, Hmap, Hcalls. reflexivity.
  - rewrite run_collection_run, Hmap, Hcalls. reflexivity.
Qed.

(** A sequence with a symbol that raises has a first such symbol. *)
Lemma first_failure (symbols : list string) (s : string) (e0 : exn) :
  In s symbols -> stats_for s = Raise e0 ->
  exists pre x post e,
    symbols = pre ++ x :: post /\
    (forall y, In y pre -> exists r, stats_for y = Ok r) /\
    stats_for x = Raise e.
Proof.
  induction symbols as [|a rest IH]; intros Hin Hs; [destruct Hin|].
  destruct (stats_for a) as [r|e] eqn:Ha.
  - destruct Hin as [->|Hin]; [congruence|].
    destruct (IH Hin Hs) as (pre & x & post & e & -> & Hpre & Hx).
    exists (a :: pre), x, post, e. split; [reflexivity|]. split; [|exact Hx].
    intros y [<-|Hy]; [eauto|auto].
  - exists [], a, rest, e. split; [reflexivity|]. split; [|exact Ha].
    intros y [].
Qed.

(** C7. If collecting any symbol of the sequence raises, then
    [generate_stats] and [run_collection] raise and build no table:
    the exception is that of the first symbol [x] that raises. The
    calls made are the four calls of each symbol before [x], symbol
    after symbol in the order of the sequence, then the calls of [x]
    up to the one that raised; nothing is done for the symbols after
    [x]. *)
Theorem run_collection_fails_fast
  (symbols : list string) (s : string) (e0 : exn) (tr : list event) :
  In s symbols -> stats_for s = Raise e0 ->
  exists pre x post e,
    symbols = pre ++ x :: post /\
    (forall y, In y pre -> exists r, stats_for y = Ok r) /\
    stats_for x = Raise e /\
    generate_stats symbols tr
    = (Raise e, tr ++ flat_map all_calls pre ++ events_of x) /\
    run_collection symbols tr
    = (Raise e, tr ++ flat_map all_calls pre ++ events_of x) /\
    Forall (fun ev => event_symbol ev = x) (events_of x) /\
    exists rest, all_calls x = events_of x ++ rest.
Proof.
  intros Hin Hs.
  destruct (first_failure symbols s e0 Hin Hs)
    as (pre & x & post & e & -> & Hpre & Hx).
  destruct (run_collection_first_failure pre post x e tr Hpre Hx) as [Hg Hr].
  exists pre, x, post, e. repeat split; try assumption; apply events_of_symbol.
Qed.

Lemma list_set_In (x : string) (l : list string) :
  In x (list_set l) <-> In x l.
Proof.
  unfold list_set.
  rewrite <- !list_elem_of_In, elem_of_elements, elem_of_list_to_set.
  reflexivity.
Qed.


Lemma list_set_NoDup (l : list string) : NoDup (list_set l).
Proof. unfold list_set. apply NoDup_elements. Qed.


End PipelineFacts.

Import Fixtures.

Lemma sample_environment_returns (x : string) :
  exists r, Collector.stats_for any_history any_backtest sample_calendar x = Ok r.
Proof. eexists. vm_compute. reflexivity. Defined.



Lemma bad_history_raises :
  Collector.stats_for flaky_history any_backtest sample_calendar "bad"
  = Raise ConnectionError.
Proof. vm_compute. reflexivity. Defined.

Lemma run_collection_fails_fast_witness :
  exists pre x post e,
    ["aapl"; "bad"; "msft"] = pre ++ x :: post /\
    Collector.run_collection flaky_history any_backtest sample_calendar
      ["aapl"; "bad"; "msft"] []
    = (Raise e,
       [] ++ flat_map Collector.all_calls pre
       ++ Collector.events_of flaky_history any_backtest x).
Proof.
  destruct (run_collection_fails_fast flaky_history any_backtest
              sample_calendar ["aapl"; "bad"; "msft"] "bad" ConnectionError []
              (or_intror (or_introl eq_refl)) bad_history_raises)
    as (pre & x & post & e & Hsplit & _ & _ & _ & Hrun & _).
  exists pre, x, post, e. split; [exact Hsplit|exact Hrun].
Defined.

(** The run of the example: "aapl" is collected, "bad" stops the run
    at its history, "msft" is never looked at. *)
Example run_collection_stops_at_bad :
  Collector.run_collection flaky_history any_backtest sample_calendar
    ["aapl"; "bad"; "msft"] []
  = (Raise ConnectionError,
     [Collector.LogCollecting "aapl"; Collector.CallHistorical "aapl";
      Collector.CallBacktest "aapl"; Collector.CallCalendar "aapl";
      Collector.LogCollecting "bad"; Collector.CallHistorical "bad"]).
Proof. vm_compute. reflexivity. Qed.

(** ** The symbol universe loader *)

Section SymbolListFacts.

Import Collector Reference.

Lemma group_symbols_selected (sp : result (list string)) (g : list string) :
  group_symbols sp (selected g) = group_symbols sp g.
Proof.
  unfold selected, group_symbols.
  destruct (py_in "faves" g); [reflexivity|].
  destruct (py_in "dji" g); [reflexivity|].
  destruct (py_in "sp" g); reflexivity.
Qed.

Lemma group_symbols_without_sp (sp sp' : result (list string)) (g : list string) :
  py_in "faves" g || py_in "dji" g = true ->
  group_symbols sp' g = group_symbols sp g.
Proof.
  unfold group_symbols.
  destruct (py_in "faves" g); [reflexivity|].
  destruct (py_in "dji" g); [reflexivity|discriminate].
Qed.

Lemma app_faves_nonempty (l : list string) : l ++ faves_components <> [].
Proof. destruct l; discriminate. Qed.

Lemma app_dji_nonempty (l : list string) : l ++ dji_components <> [].
Proof. destruct l; discriminate. Qed.

(** The outcome of a call for which the chain adds [added]. *)
Lemma load_symbol_list_adds (sp : result (list string))
  (groups symbols : option (list string)) (dflt added : list string) :
  group_symbols sp (default default_groups groups) = Ok added ->
  symbols_after (load_symbol_list sp groups symbols dflt)
  = default dflt symbols ++ added /\
  returned (load_symbol_list sp groups symbols dflt)
  = if (length (default dflt symbols ++ added) =? 0)%nat
    then Raise ValueError
    else Ok (list_set (default dflt symbols ++ added)).
Proof.
  intros Hadd. unfold load_symbol_list. rewrite Hadd. split; reflexivity.
Qed.

Lemma returned_nonempty (l : list string) :
  l <> [] ->
  (if (length l =? 0)%nat then Raise ValueError else Ok (list_set l))
  = Ok (list_set l).
Proof. destruct l; [congruence|reflexivity]. Qed.

(** C9. The groups are an exclusive chain. With "faves" in [groups]
    the list bound to [symbols] is extended by the faves components
    and by nothing else, whatever else is in [groups], and the set of
    that list is returned; the ranking table is not consulted. Without
    "faves" and with "dji" the same holds of the dji components.
    Without both and with "sp" the list is extended by the Symbol
    column of the ranking table, or the call ends with the exception of
    its load and the list as it was. With none of the three nothing is
    added. In every case the call is the call with the one selected
    group, the first of "faves", "dji", "sp" present in [groups]. *)
Theorem group_selection_is_exclusive
  (sp : result (list string)) (groups symbols : option (list string))
  (dflt : list string) :
  let g := default default_groups groups in
  let bound := default dflt symbols in
  let out := load_symbol_list sp groups symbols dflt in
  (py_in "faves" g = true ->
   symbols_after out = bound ++ faves_components /\
   returned out = Ok (list_set (bound ++ faves_components)) /\
   forall sp', load_symbol_list sp' groups symbols dflt = out) /\
  (py_in "faves" g = false -> py_in "dji" g = true ->
   symbols_after out = bound ++ dji_components /\
   returned out = Ok (list_set (bound ++ dji_components)) /\
   forall sp', load_symbol_list sp' groups symbols dflt = out) /\
  (py_in "faves" g = false -> py_in "dji" g = false -> py_in "sp" g = true ->
   match sp with
   | Ok table =>
       symbols_after out = bound ++ table /\
       returned out = if (length (bound ++ table) =? 0)%nat
                      then Raise ValueError
                      else Ok (list_set (bound ++ table))
   | Raise e => symbols_after out = bound /\ returned out = Raise e
   end) /\
  (py_in "faves" g = false -> py_in "dji" g = false -> py_in "sp" g = false ->
   symbols_after out = bound /\
   returned out = if (length bound =? 0)%nat
                  then Raise ValueError
                  else Ok (list_set bound)) /\
  out = load_symbol_list sp (Some (selected g)) symbols dflt.
Proof.
  intros g bound out. split; [|split; [|split; [|split]]].
  - intros Hf.
    assert (Hadd : forall sp', group_symbols sp' g = Ok faves_components).
    { intros sp'. unfold group_symbols. rewrite Hf. reflexivity. }
    destruct (load_symbol_list_adds sp groups symbols dflt _ (Hadd sp))
      as [Hafter Hret].
    split; [exact Hafter|]. split.
    + unfold out. rewrite Hret. apply returned_nonempty, app_faves_nonempty.
    + intros sp'. unfold out, load_symbol_list. fold g.
      rewrite (Hadd sp'), (Hadd sp). reflexivity.
  - intros Hf Hd.
    assert (Hadd : forall sp', group_symbols sp' g = Ok dji_components).
    { intros sp'. unfold group_symbols. rewrite Hf, Hd. reflexivity. }
    destruct (load_symbol_list_adds sp groups symbols dflt _ (Hadd sp))
      as [Hafter Hret].
    split; [exact Hafter|]. split.
    + unfold out. rewrite Hret. apply returned_nonempty, app_dji_nonempty.
    + intros sp'. unfold out, load_symbol_list. fold g.
      rewrite (Hadd sp'), (Hadd sp). reflexivity.
  - intros Hf Hd Hs.
    assert (Hadd : group_symbols sp g = sp).
    { unfold group_symbols. rewrite Hf, Hd, Hs. reflexivity. }
    destruct sp as [table|e].
    + apply (load_symbol_list_adds _ groups symbols dflt table Hadd).
    + unfold out, load_symbol_list. fold g. rewrite Hadd. split; reflexivity.
  - intros Hf Hd Hs.
    assert (Hadd : group_symbols sp g = Ok []).
    { unfold group_symbols. rewrite Hf, Hd, Hs. reflexivity. }
    destruct (load_symbol_list_adds sp groups symbols dflt _ Hadd)
      as [Hafter Hret].
    fold bound in Hafter, Hret. rewrite app_nil_r in Hafter, Hret.
    split; assumption.
  - unfold out, load_symbol_list. cbn [from_option id]. fold g.
    rewrite group_symbols_selected. reflexivity.
Qed.

Lemma group_selection_is_exclusive_witness :
  symbols_after (load_symbol_list (Ok ["mmm"]) (Some ["sp"; "dji"; "faves"])
                   (Some ["spy"]) [])
  = ["spy"] ++ faves_components /\
  returned (load_symbol_list (Ok ["mmm"]) (Some ["sp"; "dji"; "faves"])
              (Some ["spy"]) [])
  = Ok (list_set (["spy"] ++ faves_components)) /\
  forall sp',
    load_symbol_list sp' (Some ["sp"; "dji"; "faves"]) (Some ["spy"]) []
    = load_symbol_list (Ok ["mmm"]) (Some ["sp"; "dji"; "faves"])
        (Some ["spy"]) [].
Proof.
  apply (proj1 (group_selection_is_exclusive (Ok ["mmm"])
                  (Some ["sp"; "dji"; "faves"]) (Some ["spy"]) [])).
  reflexivity.
Defined.

Lemma fb_not_in_dji : ~ In "fb" dji_components.
Proof.
  unfold dji_components. intros H.
  repeat (destruct H as [H|H]; [discriminate H|]). exact H.
Qed.

Lemma load_symbol_list_default (sp : result (list string))
  (g dflt added : list string) :
  group_symbols sp g = Ok added -> dflt ++ added <> [] ->
  load_symbol_list sp (Some g) None dflt
  = {| returned := Ok (list_set (dflt ++ added));
       symbols_after := dflt ++ added;
       default_after := dflt ++ added |}.
Proof.
  intros Hadd Hne. unfold load_symbol_list. cbn [from_option id].
  rewrite Hadd.
  destruct (dflt ++ added) as [|a l]; [congruence|]. reflexivity.
Qed.

(** With [symbols] given, the list extended is the caller's and the
    default list is left as it was. *)
Lemma load_symbol_list_given (sp : result (list string))
  (groups : option (list string)) (symbols dflt : list string) :
  default_after (load_symbol_list sp groups (Some symbols) dflt) = dflt.
Proof.
  unfold load_symbol_list. cbn [from_option id].
  destruct (group_symbols sp _); reflexivity.
Qed.

Lemma faves_selected (sp : result (list string)) :
  group_symbols sp ["faves"] = Ok faves_components.
Proof. reflexivity. Qed.

Lemma dji_selected (sp : result (list string)) :
  group_symbols sp ["dji"] = Ok dji_components.
Proof. reflexivity. Qed.

(** C10. A call that leaves [symbols] out extends the default list in
    place. After [load_symbol_list(groups=["faves"])] the default list
    holds what it held plus the faves components, and a following
    [load_symbol_list(groups=["dji"])] returns the set of all of these
    and the dji components. From the state in which the function is
    defined, that second call returns a set with "fb" in it, while the
    same call made first returns the dji components only: equal
    arguments, different sets. *)
Theorem default_symbols_accumulate (sp : result (list string)) :
  (forall dflt,
     let first := load_symbol_list sp (Some ["faves"]) None dflt in
     let second := load_symbol_list sp (Some ["dji"]) None (default_after first) in
     default_after first = dflt ++ faves_components /\
     returned second
     = Ok (list_set ((dflt ++ faves_components) ++ dji_components)) /\
     (forall x, In x (list_set ((dflt ++ faves_components) ++ dji_components))
                <-> In x dflt \/ In x faves_components \/ In x dji_components) /\
     default_after second = (dflt ++ faves_components) ++ dji_components) /\
  (let fresh := load_symbol_list sp (Some ["dji"]) None [] in
   let first := load_symbol_list sp (Some ["faves"]) None [] in
   let second := load_symbol_list sp (Some ["dji"]) None (default_after first) in
   returned fresh = Ok (list_set ([] ++ dji_components)) /\
   returned second = Ok (list_set (([] ++ faves_components) ++ dji_components)) /\
   In "fb" (list_set (([] ++ faves_components) ++ dji_components)) /\
   ~ In "fb" (list_set ([] ++ dji_components)) /\
   (list_to_set (([] ++ faves_components) ++ dji_components) : gset string)
   <> list_to_set ([] ++ dji_components)).
Proof.
  assert (Hseq : forall dflt,
             let first := load_symbol_list sp (Some ["faves"]) None dflt in
             let second :=
               load_symbol_list sp (Some ["dji"]) None (default_after first) in
             default_after first = dflt ++ faves_components /\
             returned second
             = Ok (list_set ((dflt ++ faves_components) ++ dji_components)) /\
             default_after second
             = (dflt ++ faves_components) ++ dji_components).
  { intros dflt. cbv zeta.
    rewrite (load_symbol_list_default sp ["faves"] dflt faves_components
               (faves_selected sp) (app_faves_nonempty dflt)).
    cbn [default_after].
    rewrite (load_symbol_list_default sp ["dji"] (dflt ++ faves_components)
               dji_components (dji_selected sp) (app_dji_nonempty _)).
    cbn [default_after returned]. repeat split. }
  split.
  - intros dflt first second.
    destruct (Hseq dflt) as (H1 & H2 & H3).
    split; [exact H1|]. split; [exact H2|]. split; [|exact H3].
    intros x. rewrite list_set_In, !in_app_iff. tauto.
  - cbv zeta. destruct (Hseq []) as (_ & H2 & _).
    split.
    { rewrite (load_symbol_list_default sp ["dji"] [] dji_components
                 (dji_selected sp) (app_dji_nonempty [])).
      reflexivity. }
    split; [exact H2|].
    assert (Hin : In "fb" (list_set (([] ++ faves_components) ++ dji_components))).
    { apply (proj2 (list_set_In _ _)).
      apply (proj2 (in_app_iff _ _ _)). left.
      apply (proj2 (in_app_iff _ _ _)). right.
      right. left. reflexivity. }
    assert (Hout : ~ In "fb" (list_set ([] ++ dji_components))).
    { intros H. apply (proj1 (list_set_In _ _)) in H. exact (fb_not_in_dji H). }
    split; [exact Hin|]. split; [exact Hout|].
    intros Heq. apply Hout. unfold list_set in *. rewrite <- Heq. exact Hin.
Qed.

End SymbolListFacts.

(** ** Further properties of the date estimator *)

Section EstimateNextMore.

Import Reference.

Lemma days_365_365 (d : Z) :
  d + timedelta_days 365 + timedelta_days 365 = d + timedelta_days 730.
Proof. unfold timedelta_days, US_PER_DAY. lia. Qed.

Lemma days_order :
  0 < timedelta_days 365 /\
  timedelta_days 365 < timedelta_days 730 /\
  timedelta_days 730 < timedelta_days 1095.
Proof. unfold timedelta_days, US_PER_DAY. lia. Qed.

Lemma representable_dec (ds : list datetime) :
  {representable ds} + {~ representable ds}.
Proof.
  apply List.Forall_dec. intros d.
  destruct (Z_le_dec 0 d) as [H0|H0];
    destruct (Z_le_dec (d + timedelta_days 1095) datetime_max) as [H1|H1];
    [left; split; assumption|right|right|right]; intros [? ?]; contradiction.
Qed.

Lemma candidate_same_dates (ds ds' : list datetime) (c : Z) :
  (forall d, In d ds <-> In d ds') -> candidate ds c -> candidate ds' c.
Proof.
  intros Hmem (d & Hd & Hc). exists d. split; [apply Hmem, Hd|exact Hc].
Qed.

Lemma is_estimate_same_dates (today : Z) (ds ds' : list datetime)
  (r : option Z) :
  (forall d, In d ds <-> In d ds') ->
  is_estimate today ds r -> is_estimate today ds' r.
Proof.
  intros Hmem. assert (Hmem' : forall d, In d ds' <-> In d ds).
  { intros d. symmetry. apply Hmem. }
  destruct r as [c|]; simpl.
  - intros (Hc & Hs & Hle). split; [|split].
    + eapply candidate_same_dates; eauto.
    + exact Hs.
    + intros c' Hc'. apply Hle. eapply candidate_same_dates; eauto.
  - intros Hnone c Hc. apply Hnone. eapply candidate_same_dates; eauto.
Qed.

Lemma Forall_same_dates (P : Z -> Prop) (ds ds' : list datetime) :
  (forall d, In d ds <-> In d ds') -> Forall P ds -> Forall P ds'.
Proof.
  intros Hmem H. apply List.Forall_forall. intros d Hd.
  apply (proj1 (List.Forall_forall _ _) H). apply Hmem, Hd.
Qed.

(** X1. The estimate depends on the set of the dates only: two lists
    of datetimes with the same members, in whatever order and with
    whatever repetitions, get the same outcome, be it an estimate, no
    estimate or the overflow. *)
Theorem estimate_next_ignores_order
  (today : datetime) (ds ds' : list datetime) :
  Forall is_datetime ds ->
  (forall d, In d ds <-> In d ds') ->
  Iex.estimate_next today ds = Iex.estimate_next today ds'.
Proof.
  intros Hval Hmem.
  pose proof (Forall_same_dates _ _ _ Hmem Hval) as Hval'.
  destruct (representable_dec ds) as [Hrep|Hnot].
  - pose proof (Forall_same_dates _ _ _ Hmem Hrep) as Hrep'.
    rewrite (estimate_next_representable today ds Hrep).
    rewrite (estimate_next_representable today ds' Hrep'). f_equal.
    apply (is_estimate_unique today ds'); [|apply estimate_is_estimate].
    apply (is_estimate_same_dates today ds ds' _ Hmem).
    apply estimate_is_estimate.
  - assert (Hnot' : ~ representable ds').
    { intros Hrep'. apply Hnot.
      apply (Forall_same_dates _ ds' ds); [|exact Hrep'].
      intros d. symmetry. apply Hmem. }
    rewrite (estimate_next_overflow today ds Hval Hnot).
    rewrite (estimate_next_overflow today ds' Hval' Hnot'). reflexivity.
Qed.

Lemma is_datetime_2023 :
  Forall is_datetime [ymd 2023 2 1; ymd 2022 11 1].
Proof.
  constructor; [split; vm_compute; discriminate|].
  constructor; [split; vm_compute; discriminate|constructor].
Defined.

Lemma estimate_next_ignores_order_witness :
  Iex.estimate_next (ymd 2024 6 1) [ymd 2023 2 1; ymd 2022 11 1]
  = Iex.estimate_next (ymd 2024 6 1)
      [ymd 2022 11 1; ymd 2023 2 1; ymd 2022 11 1].
Proof.
  apply (estimate_next_ignores_order (ymd 2024 6 1)
           [ymd 2023 2 1; ymd 2022 11 1]
           [ymd 2022 11 1; ymd 2023 2 1; ymd 2022 11 1] is_datetime_2023).
  generalize (ymd 2023 2 1) (ymd 2022 11 1). intros a b d. cbn [In]. tauto.
Defined.

(** X2. On representable dates the estimator gives no estimate
    exactly when every date lies 1095 days or more before today, the
    empty list included. *)
Theorem estimate_next_none_iff (today : datetime) (ds : list datetime) :
  representable ds ->
  (Iex.estimate_next today ds = Ok None <->
   forall d, In d ds -> d + timedelta_days 1095 <= today).
Proof.
  intros Hrep. rewrite (estimate_next_representable today ds Hrep).
  pose proof (estimate_is_estimate today ds) as Hest.
  pose proof days_order as (H0 & H1 & H2).
  split.
  - intros [= Hnone]. rewrite Hnone in Hest. simpl in Hest.
    intros d Hd.
    assert (Hc : candidate ds (d + timedelta_days 730)) by (exists d; auto).
    specialize (Hest _ Hc). unfold survives in Hest.
    rewrite days_730_365 in Hest. lia.
  - intros Hold. f_equal.
    apply (is_estimate_unique today ds); [exact Hest|].
    simpl. intros c (d & Hd & Hc). unfold survives.
    specialize (Hold d Hd).
    destruct Hc as [-> | ->].
    + rewrite days_365_365. lia.
    + rewrite days_730_365. lia.
Qed.

Lemma estimate_next_none_iff_witness :
  Iex.estimate_next (ymd 2026 2 1) [ymd 2023 2 1] = Ok None <->
  forall d, In d [ymd 2023 2 1] -> d + timedelta_days 1095 <= ymd 2026 2 1.
Proof.
  apply (estimate_next_none_iff (ymd 2026 2 1) [ymd 2023 2 1]
           representable_2023_02_01).
Defined.

(** X3. For a single representable date [d] the estimate is [d] plus
    365 days while today is before [d] plus 730 days, then [d] plus 730
    days while today is before [d] plus 1095 days, and after that no
    estimate. *)
Theorem estimate_next_single (today d : datetime) :
  representable [d] ->
  Iex.estimate_next today [d]
  = Ok (if today <? d + timedelta_days 730 then Some (d + timedelta_days 365)
        else if today <? d + timedelta_days 1095
             then Some (d + timedelta_days 730)
             else None).
Proof.
  intros Hrep. rewrite (estimate_next_representable today [d] Hrep). f_equal.
  apply (is_estimate_unique today [d]); [apply estimate_is_estimate|].
  pose proof days_order as (H0 & H1 & H2).
  assert (Hcand : forall c, candidate [d] c <->
                            c = d + timedelta_days 365 \/
                            c = d + timedelta_days 730).
  { intros c. split.
    - intros (d' & [<-|[]] & Hc). exact Hc.
    - intros Hc. exists d. split; [left; reflexivity|exact Hc]. }
  destruct (Z.ltb_spec today (d + timedelta_days 730)) as [Hlt|Hge].
  - simpl. split; [apply Hcand; auto|]. split.
    + unfold survives. rewrite days_365_365. exact Hlt.
    + intros c' Hc' _. apply Hcand in Hc' as [-> | ->]; lia.
  - destruct (Z.ltb_spec today (d + timedelta_days 1095)) as [Hlt|Hge'].
    + simpl. split; [apply Hcand; auto|]. split.
      * unfold survives. rewrite days_730_365. exact Hlt.
      * intros c' Hc' Hs'. apply Hcand in Hc' as [-> | ->]; [|lia].
        unfold survives in Hs'. rewrite days_365_365 in Hs'. lia.
    + simpl. intros c Hc. apply Hcand in Hc as [-> | ->]; unfold survives.
      * rewrite days_365_365. lia.
      * rewrite days_730_365. lia.
Qed.

Lemma estimate_next_single_witness :
  Iex.estimate_next (ymd 2024 6 1) [ymd 2023 2 1]
  = Ok (if ymd 2024 6 1 <? ymd 2023 2 1 + timedelta_days 730
        then Some (ymd 2023 2 1 + timedelta_days 365)
        else if ymd 2024 6 1 <? ymd 2023 2 1 + timedelta_days 1095
             then Some (ymd 2023 2 1 + timedelta_days 730)
             else None).
Proof.
  apply (estimate_next_single (ymd 2024 6 1) (ymd 2023 2 1)
           representable_2023_02_01).
Defined.

End EstimateNextMore.

(** ** Further properties of the loaders *)

Section ParseDate.

Import Iex.

Lemma days_before_year_bounds (y : Z) :
  1 <= y <= 9999 ->
  0 <= days_before_year y /\
  (y <= 9998 -> days_before_year y + 366 <= MAXORDINAL).
Proof.
  intros Hy. unfold days_before_year, MAXORDINAL. cbv zeta.
  Z.to_euclidean_division_equations. lia.
Qed.

Lemma days_before_month_bounds (y m d : Z) :
  1 <= m <= 12 -> 1 <= d <= days_in_month y m ->
  1 <= days_before_month y m + d <= 366 /\
  (is_leap y = false -> days_before_month y m + d <= 365).
Proof.
  intros Hm.
  assert (Hcases : m = 1 \/ m = 2 \/ m = 3 \/ m = 4 \/ m = 5 \/ m = 6 \/
                   m = 7 \/ m = 8 \/ m = 9 \/ m = 10 \/ m = 11 \/ m = 12)
    by lia.
  clear Hm.
  repeat (destruct Hcases as [Hc|Hcases]; [subst m|]); [..|subst m];
    unfold days_before_month, days_in_month; simpl;
    destruct (is_leap y); intros Hd; (split; [lia|]); intros Hl;
    first [lia|discriminate Hl].
Qed.

(** A date that [datetime.datetime(y, m, d)] accepts is a [datetime],
    at midnight. *)
Lemma datetime_of_ymd_range (y m d : Z) (t : datetime) :
  datetime_of_ymd y m d = Ok t -> is_datetime t /\ t mod US_PER_DAY = 0.
Proof.
  unfold datetime_of_ymd.
  destruct (Z.leb_spec 1 y); cbn [andb]; [|discriminate].
  destruct (Z.leb_spec y 9999); cbn [andb]; [|discriminate].
  destruct (Z.leb_spec 1 m); cbn [andb]; [|discriminate].
  destruct (Z.leb_spec m 12); cbn [andb]; [|discriminate].
  destruct (Z.leb_spec 1 d); cbn [andb]; [|discriminate].
  destruct (Z.leb_spec d (days_in_month y m)); cbn [andb]; [|discriminate].
  intros [= <-].
  destruct (days_before_year_bounds y) as [Hy0 Hy1]; [lia|].
  destruct (days_before_month_bounds y m d) as [[Hm0 Hm1] Hm2]; [lia|lia|].
  assert (Hord : 1 <= ymd2ord y m d <= MAXORDINAL).
  { unfold ymd2ord. split; [lia|].
    destruct (Z.eq_dec y 9999) as [->|Hne].
    - specialize (Hm2 eq_refl).
      assert (H9 : days_before_year 9999 = 3651694) by (vm_compute; reflexivity).
      rewrite H9. unfold MAXORDINAL. lia.
    - assert (Hy' : y <= 9998) by lia. specialize (Hy1 Hy'). lia. }
  split.
  - unfold is_datetime, datetime_max. unfold US_PER_DAY. lia.
  - apply Z.mod_mul. unfold US_PER_DAY. lia.
Qed.

Lemma strptime_ymd_range (s : text) (t : datetime) :
  strptime_ymd s = Ok t -> is_datetime t /\ t mod US_PER_DAY = 0.
Proof.
  unfold strptime_ymd.
  destruct (match_Y _) as [[y r]|]; [|discriminate].
  destruct (after_dash r) as [r'|]; [|discriminate].
  destruct (first_md _) as [[[m d] [|c rest]]|]; try discriminate.
  apply datetime_of_ymd_range.
Qed.

Lemma strptime_only_ValueError (s : text) (e : exn) :
  strptime_ymd s = Raise e -> e = ValueError.
Proof.
  unfold strptime_ymd, datetime_of_ymd.
  destruct (match_Y _) as [[y r]|]; [|congruence].
  destruct (after_dash r) as [r'|]; [|congruence].
  destruct (first_md _) as [[[m d] [|c rest]]|]; try congruence.
  destruct (_ && _); congruence.
Qed.

End ParseDate.

Section Frames.

Import Iex Notions.

Lemma add_key_In (ks : list string) (k x : string) :
  In x (add_key ks k) <-> In x ks \/ x = k.
Proof.
  unfold add_key. destruct (existsb (String.eqb k) ks) eqn:E.
  - apply existsb_exists in E as (y & Hy & Hky).
    apply String.eqb_eq in Hky. subst y. split; [auto|].
    intros [H | ->]; assumption.
  - rewrite in_app_iff. simpl. intuition.
Qed.

Lemma fold_add_key_In (l acc : list string) (x : string) :
  In x (fold_left add_key l acc) <-> In x acc \/ In x l.
Proof.
  revert acc. induction l as [|k l IH]; intros acc; simpl.
  - intuition.
  - rewrite IH, add_key_In. intuition.
Qed.

Lemma keys_union_In (rs : list record) (x : string) :
  In x (keys_union rs) <-> exists r, In r rs /\ In x (map fst r).
Proof.
  unfold keys_union.
  assert (H : forall acc,
             In x (fold_left (fun acc r => fold_left add_key (map fst r) acc)
                     rs acc)
             <-> In x acc \/ exists r, In r rs /\ In x (map fst r)).
  { induction rs as [|r rs IH]; intros acc; simpl.
    - split; [auto|]. intros [H|(r & [] & _)]. exact H.
    - rewrite IH, fold_add_key_In. split.
      + intros [[H|H]|(r' & Hr' & Hx)]; eauto.
      + intros [H|(r' & [<-|Hr'] & Hx)]; eauto. }
  rewrite H. split; [intros [[]|H']; exact H'|auto].
Qed.

Lemma has_key_In {A : Type} (k : string) (l : list (string * A)) :
  has_key k l = true <-> In k (map fst l).
Proof.
  unfold has_key. rewrite existsb_exists. split.
  - intros (y & Hy & Hky). apply String.eqb_eq in Hky. subst y. exact Hy.
  - intros H. exists k. split; [exact H|apply String.eqb_refl].
Qed.

Lemma assoc_keyed {A : Type} (f : string -> A) (ks : list string) (k : string) :
  assoc k (map (fun c => (c, f c)) ks)
  = if existsb (String.eqb k) ks then Some (f k) else None.
Proof.
  induction ks as [|c ks IH]; simpl; [reflexivity|].
  destruct (String.eqb_spec k c) as [->|Hne]; simpl; [reflexivity|exact IH].
Qed.

(** The column [k] of a frame built from records: the value of each
    record under [k], NaN where the record has no such key; there is
    such a column when some record has the key. *)
Lemma frame_column (rs : list record) (k : string) :
  assoc k (columns (frame_of_records rs))
  = if has_key k (columns (frame_of_records rs))
    then Some (convert_column
                 (map (fun r => match assoc k r with
                                | Some v => CVal v
                                | None => CNaN
                                end) rs))
    else None.
Proof.
  unfold frame_of_records, has_key. cbn [columns].
  rewrite assoc_keyed, map_map. cbn [fst]. rewrite map_id. reflexivity.
Qed.

Lemma frame_has_key (rs : list record) (k : string) :
  has_key k (columns (frame_of_records rs)) = true
  <-> exists r, In r rs /\ has_key k r = true.
Proof.
  rewrite has_key_In. unfold frame_of_records. cbn [columns].
  rewrite map_map. cbn [fst]. rewrite map_id, keys_union_In.
  split; intros (r & Hr & Hk); exists r; split; auto; apply has_key_In, Hk.
Qed.

Lemma mapM_map_inv {A B C : Type} (f : B -> result C) (g : A -> B)
  (xs : list A) (ys : list C) :
  mapM f (map g xs) = Ok ys -> Forall2 (fun x y => f (g x) = Ok y) xs ys.
Proof.
  revert ys. induction xs as [|x xs IH]; simpl; intros ys H.
  - injection H as <-. constructor.
  - destruct (f (g x)) as [y|] eqn:E; cbn [bind] in H; [|discriminate].
    destruct (mapM f (map g xs)) as [ys'|]; cbn [bind] in H; [|discriminate].
    injection H as <-. constructor; auto.
Qed.

Lemma mapM_defined {A B : Type} (f : A -> result B) (xs : list A) :
  Forall (fun x => exists y, f x = Ok y) xs -> exists ys, mapM f xs = Ok ys.
Proof.
  induction 1 as [|x xs [y Hy] _ [ys IH]]; simpl; [eauto|].
  rewrite Hy, IH. simpl. eauto.
Qed.

Lemma parsedate_date_field (k : string) (r : record) (c : cell) :
  parsedate (match assoc k r with Some v => CVal v | None => CNaN end) = Ok c ->
  exists t, c = CDate t /\ date_field k r t.
Proof.
  destruct (assoc k r) as [[| | |s]|] eqn:E; simpl; try discriminate.
  destruct (strptime_ymd s) as [t|] eqn:Et; simpl; [|discriminate].
  intros [= <-]. exists t. split; [reflexivity|]. exists s. auto.
Qed.

Lemma has_date_parses (k : string) (r : record) :
  has_date k r ->
  exists c, parsedate (match assoc k r with Some v => CVal v | None => CNaN end)
            = Ok c.
Proof.
  intros (t & s & Hs & Ht). rewrite Hs. simpl. rewrite Ht. simpl. eauto.
Qed.

End Frames.

Section LoadersMore.

Import Iex Notions.

(** What the three steps return: one date of index per record, read
    from the key [name], and every record has a date under each of
    the keys [cols]. *)
Lemma parse_and_index_inv (cols : list string) (name : string)
  (rs : list record) (d : DateFrame) :
  In name cols ->
  parse_and_index cols name (frame_of_records rs) = Ok d ->
  rs <> [] /\
  Forall2 (date_field name) rs (index d) /\
  forall c, In c cols -> Forall (has_date c) rs.
Proof.
  intros Hname. unfold parse_and_index.
  destruct (getitem_cols _ cols) as [sel|] eqn:Esel; cbn [bind]; [|discriminate].
  destruct (applymap parsedate sel) as [parsed|] eqn:Epar; cbn [bind];
    [|discriminate].
  intros Hidx.
  assert (Hcol : forall c, In c cols ->
            exists v', assoc c parsed = Some v' /\
                       has_key c (columns (frame_of_records rs)) = true /\
                       mapM parsedate
                         (map (fun r => match assoc c r with
                                        | Some v => CVal v
                                        | None => CNaN
                                        end) rs) = Ok v').
  { intros c Hc.
    destruct (assoc_getitem_cols _ _ _ _ Esel Hc) as (v & Hv & Hdf).
    destruct (assoc_applymap _ _ _ _ _ Epar Hv) as (v' & Hv' & Hmap).
    rewrite frame_column in Hdf.
    destruct (has_key c (columns (frame_of_records rs))); [|discriminate].
    injection Hdf as <-. rewrite mapM_parsedate_convert in Hmap. eauto. }
  split; [|split].
  - destruct (Hcol name Hname) as (_ & _ & Hk & _).
    intros ->. discriminate Hk.
  - destruct (Hcol name Hname) as (v' & Hv' & Hk & Hmap).
    unfold set_index in Hidx.
    assert (Hdf : assoc name (columns (frame_of_records rs))
                  = Some (convert_column
                            (map (fun r => match assoc name r with
                                           | Some v => CVal v
                                           | None => CNaN
                                           end) rs))).
    { rewrite frame_column, Hk. reflexivity. }
    rewrite (assoc_setitem_cols _ parsed name _ v' Hdf Hv') in Hidx.
    destruct (mapM as_datetime v') as [ds|] eqn:Eds; cbn [bind] in Hidx;
      [|discriminate].
    injection Hidx as <-. cbn [index].
    apply mapM_map_inv in Hmap. apply mapM_Ok_inv in Eds.
    clear - Hmap Eds. revert ds Eds.
    induction Hmap as [|r c rs' v'' Hrc _ IH]; intros ds Eds;
      inversion Eds as [|c0 t v0 ds' Hct Hrest]; subst; constructor.
    + apply parsedate_date_field in Hrc as (t' & -> & Hf).
      simpl in Hct. injection Hct as <-. exact Hf.
    + apply IH, Hrest.
  - intros c Hc. destruct (Hcol c Hc) as (v' & _ & _ & Hmap).
    apply mapM_map_inv in Hmap. clear - Hmap.
    induction Hmap as [|r c' rs' v'' Hrc _ IH]; constructor; [|exact IH].
    apply parsedate_date_field in Hrc as (t & _ & Hf). exists t. exact Hf.
Qed.

(** The three steps return as soon as there is a record and every
    record has a date under each of the keys. *)
Lemma parse_and_index_returns (cols : list string) (name : string)
  (rs : list record) :
  In name cols -> rs <> [] ->
  (forall c, In c cols -> Forall (has_date c) rs) ->
  exists d, parse_and_index cols name (frame_of_records rs) = Ok d.
Proof.
  intros Hname Hne Hall. unfold parse_and_index.
  assert (Hkey : forall c, In c cols ->
            assoc c (columns (frame_of_records rs))
            = Some (convert_column
                      (map (fun r => match assoc c r with
                                     | Some v => CVal v
                                     | None => CNaN
                                     end) rs))).
  { intros c Hc. rewrite frame_column.
    assert (Hk : has_key c (columns (frame_of_records rs)) = true).
    { apply frame_has_key. destruct rs as [|r rs']; [congruence|].
      exists r. split; [left; reflexivity|].
      pose proof (Hall c Hc) as Hr. inversion Hr as [|? ? (t & s & Hs & _) _].
      apply has_key_assoc. eauto. }
    rewrite Hk. reflexivity. }
  assert (Hsel : exists sel,
            getitem_cols (frame_of_records rs) cols = Ok sel /\
            Forall (fun cv => exists v', mapM parsedate (snd cv) = Ok v') sel).
  { unfold getitem_cols. clear Hname.
    induction cols as [|c cols IH]; cbn [mapM]; [eauto|].
    rewrite (Hkey c (or_introl eq_refl)). cbn [bind].
    destruct IH as (sel & Hsel & Hpar).
    { intros c' Hc'. apply Hall. right. exact Hc'. }
    { intros c' Hc'. apply Hkey. right. exact Hc'. }
    rewrite Hsel. cbn [bind]. eexists. split; [reflexivity|].
    constructor; [|exact Hpar]. cbn [snd].
    rewrite mapM_parsedate_convert. apply mapM_defined. apply List.Forall_forall. intros x Hx.
    apply in_map_iff in Hx as (r & <- & Hr).
    apply has_date_parses.
    apply (proj1 (List.Forall_forall _ _) (Hall c (or_introl eq_refl)) r Hr). }
  destruct Hsel as (sel & Hsel & Hpar). rewrite Hsel. cbn [bind].
  assert (Happ : exists parsed, applymap parsedate sel = Ok parsed).
  { unfold applymap. apply mapM_defined.
    eapply List.Forall_impl; [|exact Hpar].
    intros cv [v' Hv']. rewrite Hv'. cbn [bind]. eauto. }
  destruct Happ as (parsed & Happ). rewrite Happ. cbn [bind].
  apply (set_index_dates _ cols sel parsed name Hsel Happ Hname).
Qed.

Lemma load_earnings_unfold (api : Remote) (symbol : string)
  (payload : earnings_payload) (rs : list record) :
  get_earnings api symbol = Ok payload ->
  assoc "earnings" payload = Some (FRecords rs) ->
  load_earnings api symbol
  = try d <- parse_and_index ["EPSReportDate"; "fiscalEndDate"]
               "EPSReportDate" (frame_of_records rs) in
    Ok (Some d).
Proof.
  intros Hget Hrs. unfold load_earnings, parse_and_index.
  rewrite Hget. cbn [bind]. rewrite Hrs. cbn [bind frame_of_field].
  destruct (getitem_cols _ _); cbn [bind]; [|reflexivity].
  destruct (applymap _ _); reflexivity.
Qed.

(** X5. Given the answer of the earnings endpoint, [load_earnings]
    returns a frame exactly when the answer holds under "earnings" a
    list of at least one record and every record has a date under
    "EPSReportDate" and under "fiscalEndDate"; the index of the frame
    is then the report dates of the records, one per record and in
    their order. *)
Theorem load_earnings_returns_iff (api : Remote) (symbol : string)
  (payload : earnings_payload) :
  get_earnings api symbol = Ok payload ->
  ((exists e, load_earnings api symbol = Ok (Some e)) <->
   exists rs, assoc "earnings" payload = Some (FRecords rs) /\ rs <> [] /\
              Forall (has_date "EPSReportDate") rs /\
              Forall (has_date "fiscalEndDate") rs) /\
  (forall e rs, load_earnings api symbol = Ok (Some e) ->
                assoc "earnings" payload = Some (FRecords rs) ->
                Forall2 (date_field "EPSReportDate") rs (index e)).
Proof.
  intros Hget.
  assert (Hinv : forall e rs,
             load_earnings api symbol = Ok (Some e) ->
             assoc "earnings" payload = Some (FRecords rs) ->
             rs <> [] /\ Forall2 (date_field "EPSReportDate") rs (index e) /\
             forall c, In c ["EPSReportDate"; "fiscalEndDate"] ->
                       Forall (has_date c) rs).
  { intros e rs He Hrs.
    rewrite (load_earnings_unfold api symbol payload rs Hget Hrs) in He.
    destruct (parse_and_index _ _ _) as [d|] eqn:Ed; cbn [bind] in He;
      [|discriminate].
    injection He as <-.
    apply (parse_and_index_inv ["EPSReportDate"; "fiscalEndDate"]
             "EPSReportDate" rs d (or_introl eq_refl) Ed). }
  split; [split|].
  - intros [e He].
    assert (Hrs : exists rs, assoc "earnings" payload = Some (FRecords rs)).
    { unfold load_earnings in He. rewrite Hget in He. cbn [bind] in He.
      destruct (assoc "earnings" payload) as [[[| | |]|rs]|];
        try discriminate He; eauto. }
    destruct Hrs as [rs Hrs]. exists rs.
    destruct (Hinv e rs He Hrs) as (Hne & _ & Hcols).
    split; [exact Hrs|]. split; [exact Hne|]. split; apply Hcols; simpl; auto.
  - intros (rs & Hrs & Hne & H1 & H2).
    rewrite (load_earnings_unfold api symbol payload rs Hget Hrs).
    destruct (parse_and_index_returns ["EPSReportDate"; "fiscalEndDate"]
                "EPSReportDate" rs (or_introl eq_refl) Hne) as [d Hd].
    { intros c [<-|[<-|[]]]; assumption. }
    rewrite Hd. cbn [bind]. eauto.
  - intros e rs He Hrs. apply (Hinv e rs He Hrs).
Qed.

Lemma load_dividends_unfold (api : Remote) (symbol : string)
  (rs : dividends_payload) :
  get_dividends api symbol = Ok rs ->
  load_dividends api symbol
  = if has_key "exDate" (columns (frame_of_records rs))
    then try d <- parse_and_index dividend_date_cols "exDate"
                    (frame_of_records rs) in
         Ok (Some d)
    else Ok None.
Proof.
  intros Hget. unfold load_dividends, parse_and_index, dividend_date_cols.
  rewrite Hget. cbn [bind].
  destruct (has_key _ _); [|reflexivity].
  destruct (getitem_cols _ _); cbn [bind]; [|reflexivity].
  destruct (applymap _ _); reflexivity.
Qed.

Lemma exDate_is_a_date_col : In "exDate" dividend_date_cols.
Proof. right. left. reflexivity. Qed.

Lemma no_key_Forall (k : string) (rs : list record) :
  has_key k (columns (frame_of_records rs)) = false
  <-> Forall (fun r => has_key k r = false) rs.
Proof.
  split.
  - intros Hno. apply List.Forall_forall. intros r Hr.
    destruct (has_key k r) eqn:E; [|reflexivity].
    assert (Hyes : has_key k (columns (frame_of_records rs)) = true)
      by (apply frame_has_key; eauto).
    congruence.
  - intros Hall.
    destruct (has_key k (columns (frame_of_records rs))) eqn:E; [|reflexivity].
    apply frame_has_key in E as (r & Hr & Hk).
    pose proof (proj1 (List.Forall_forall _ _) Hall r Hr). congruence.
Qed.

(** X6. Given the answer of the dividends endpoint, [load_dividends]
    answers [None] exactly when no record of the answer has the key
    "exDate". When some record has the key and some other has not, it
    neither answers [None] nor returns a frame: it raises. *)
Theorem load_dividends_none_iff (api : Remote) (symbol : string)
  (rs : dividends_payload) :
  get_dividends api symbol = Ok rs ->
  (load_dividends api symbol = Ok None <->
   Forall (fun r => has_key "exDate" r = false) rs) /\
  ((exists r, In r rs /\ has_key "exDate" r = true) ->
   (exists r, In r rs /\ has_key "exDate" r = false) ->
   exists e, load_dividends api symbol = Raise e).
Proof.
  intros Hget. rewrite (load_dividends_unfold api symbol rs Hget). split.
  - rewrite <- no_key_Forall.
    destruct (has_key "exDate" (columns (frame_of_records rs))).
    + split; [|discriminate].
      destruct (parse_and_index _ _ _); cbn [bind]; discriminate.
    + split; reflexivity.
  - intros Hsome (r & Hr & Hno).
    apply frame_has_key in Hsome. rewrite Hsome.
    destruct (parse_and_index _ _ _) as [d|e] eqn:Ed; cbn [bind]; [|eauto].
    exfalso.
    destruct (parse_and_index_inv _ _ rs d exDate_is_a_date_col Ed)
      as (_ & _ & Hcols).
    pose proof (proj1 (List.Forall_forall _ _)
                  (Hcols "exDate" exDate_is_a_date_col) r Hr)
      as (t & s & Hs & _).
    assert (Hyes : has_key "exDate" r = true) by (apply has_key_assoc; eauto).
    congruence.
Qed.

(** X7. Given the answer of the dividends endpoint, [load_dividends]
    returns a frame exactly when the answer has at least one record
    and every record has a date under each of "declaredDate",
    "exDate", "paymentDate" and "recordDate"; the index of the frame is
    then the ex-dividend dates of the records, one per record and in
    their order. *)
Theorem load_dividends_returns_iff (api : Remote) (symbol : string)
  (rs : dividends_payload) :
  get_dividends api symbol = Ok rs ->
  ((exists d, load_dividends api symbol = Ok (Some d)) <->
   rs <> [] /\ forall c, In c dividend_date_cols -> Forall (has_date c) rs) /\
  (forall d, load_dividends api symbol = Ok (Some d) ->
             Forall2 (date_field "exDate") rs (index d)).
Proof.
  intros Hget. rewrite (load_dividends_unfold api symbol rs Hget).
  assert (Hinv : forall d,
             (if has_key "exDate" (columns (frame_of_records rs))
              then try d <- parse_and_index dividend_date_cols "exDate"
                              (frame_of_records rs) in
                   Ok (Some d)
              else Ok None) = Ok (Some d) ->
             rs <> [] /\ Forall2 (date_field "exDate") rs (index d) /\
             forall c, In c dividend_date_cols -> Forall (has_date c) rs).
  { intros d. destruct (has_key _ _); [|discriminate].
    destruct (parse_and_index _ _ _) as [d'|] eqn:Ed; cbn [bind];
      [|discriminate].
    intros [= <-].
    apply (parse_and_index_inv _ _ rs d' exDate_is_a_date_col Ed). }
  split; [split|].
  - intros [d Hd]. destruct (Hinv d Hd) as (Hne & _ & Hcols). auto.
  - intros [Hne Hcols].
    assert (Hk : has_key "exDate" (columns (frame_of_records rs)) = true).
    { apply frame_has_key. destruct rs as [|r rs']; [congruence|].
      exists r. split; [left; reflexivity|].
      pose proof (Hcols "exDate" exDate_is_a_date_col) as Hr.
      inversion Hr as [|? ? (t & s & Hs & _) _].
      apply has_key_assoc. eauto. }
    rewrite Hk.
    destruct (parse_and_index_returns dividend_date_cols "exDate" rs
                exDate_is_a_date_col Hne Hcols) as [d Hd].
    rewrite Hd. cbn [bind]. eauto.
  - intros d Hd. apply (Hinv d Hd).
Qed.

(** *** The columns that the loaders leave as they are *)
















(** The summary of the sample: the amount at the latest ex-dividend
    date, 2018-08-10, and the estimate made from the report dates. *)
Example load_calendar_sample :
  load_calendar (ymd 2018 9 1) (ymd 2018 9 1) Fixtures.sample_api "AAPL"
  = Ok {| lastEPSReportDate := Some (ymd 2018 7 31);
          nextEPSReportDate := Some (ymd 2019 5 1);
          lastExDate := Some (ymd 2018 8 10);
          lastDividend := Some (VScalar (CVal (SNum (73 # 100))));
          nextExDate := Some (ymd 2019 5 1) |}.
Proof. vm_compute. reflexivity. Qed.

(** A null amount among numbers is read back as NaN. *)
Example load_calendar_null_amount :
  load_calendar (ymd 2018 9 1) (ymd 2018 9 1)
    {| get_earnings := fun _ => Ok Fixtures.sample_earnings;
       get_dividends := fun _ => Ok Fixtures.dividends_null_amount |} "AAPL"
  = Ok {| lastEPSReportDate := Some (ymd 2018 7 31);
          nextEPSReportDate := Some (ymd 2019 5 1);
          lastExDate := Some (ymd 2018 8 10);
          lastDividend := Some (VScalar CNaN);
          nextExDate := Some (ymd 2019 5 1) |}.
Proof. vm_compute. reflexivity. Qed.


(** Report dates near the end of the range of [Timestamp]. A report on
    2260-01-01 has both candidates in range, but the projection of the
    second, 2262-12-31, is not: the [OutOfBoundsDatetime] is raised
    inside the [try] and there is no estimate. A report on 2261-01-01
    has its second candidate out of range: the exception is raised
    before the [try] and ends the call. *)
Example load_calendar_report_2260 :
  load_calendar (ymd 2018 9 1) (ymd 2018 9 1)
    (Fixtures.reported_on "2260-01-01") "XYZ"
  = Ok {| lastEPSReportDate := Some (ymd 2260 1 1);
          nextEPSReportDate := None;
          lastExDate := None;
          lastDividend := None;
          nextExDate := None |}.
Proof. vm_compute. reflexivity. Qed.

Example load_calendar_report_2261 :
  load_calendar (ymd 2018 9 1) (ymd 2018 9 1)
    (Fixtures.reported_on "2261-01-01") "XYZ"
  = Raise ValueError.
Proof. vm_compute. reflexivity. Qed.

(** A report date beyond the range of [Timestamp] leaves the index a
    column of [datetime.datetime], on which the estimate is that of
    [estimate_next]. *)
Example load_calendar_report_3000 :
  load_calendar (ymd 2018 9 1) (ymd 2018 9 1)
    (Fixtures.reported_on "3000-01-01") "XYZ"
  = Ok {| lastEPSReportDate := Some (ymd 3000 1 1);
          nextEPSReportDate := Some (ymd 3001 1 1);
          lastExDate := None;
          lastDividend := None;
          nextExDate := None |}.
Proof. vm_compute. reflexivity. Qed.

Lemma load_earnings_returns_iff_witness :
  ((exists e, load_earnings Fixtures.sample_api "AAPL" = Ok (Some e)) <->
   exists rs, assoc "earnings" Fixtures.sample_earnings = Some (FRecords rs) /\
              rs <> [] /\
              Forall (has_date "EPSReportDate") rs /\
              Forall (has_date "fiscalEndDate") rs) /\
  (forall e rs, load_earnings Fixtures.sample_api "AAPL" = Ok (Some e) ->
                assoc "earnings" Fixtures.sample_earnings = Some (FRecords rs) ->
                Forall2 (date_field "EPSReportDate") rs (index e)).
Proof.
  apply (load_earnings_returns_iff Fixtures.sample_api "AAPL"
           Fixtures.sample_earnings).
  reflexivity.
Defined.

Lemma load_dividends_none_iff_witness :
  (load_dividends Fixtures.earnings_only_api "AAPL" = Ok None <->
   Forall (fun r => has_key "exDate" r = false)
     Fixtures.dividends_without_exDate) /\
  ((exists r, In r Fixtures.dividends_without_exDate /\
              has_key "exDate" r = true) ->
   (exists r, In r Fixtures.dividends_without_exDate /\
              has_key "exDate" r = false) ->
   exists e, load_dividends Fixtures.earnings_only_api "AAPL" = Raise e).
Proof.
  apply (load_dividends_none_iff Fixtures.earnings_only_api "AAPL"
           Fixtures.dividends_without_exDate).
  reflexivity.
Defined.

Lemma load_dividends_returns_iff_witness :
  ((exists d, load_dividends Fixtures.sample_api "AAPL" = Ok (Some d)) <->
   Fixtures.sample_dividends <> [] /\
   forall c, In c dividend_date_cols ->
             Forall (has_date c) Fixtures.sample_dividends) /\
  (forall d, load_dividends Fixtures.sample_api "AAPL" = Ok (Some d) ->
             Forall2 (date_field "exDate") Fixtures.sample_dividends (index d)).
Proof.
  apply (load_dividends_returns_iff Fixtures.sample_api "AAPL"
           Fixtures.sample_dividends).
  reflexivity.
Defined.

End LoadersMore.

(** ** Further properties of the symbol universe loader *)

Section SymbolListMore.

Import Collector Notions.

Lemma load_symbol_list_added (sp : result (list string))
  (groups symbols : option (list string)) (dflt added : list string) :
  group_symbols sp (default default_groups groups) = Ok added ->
  load_symbol_list sp groups symbols dflt
  = {| returned :=
         if (length (default dflt symbols ++ added) =? 0)%nat
         then Raise ValueError
         else Ok (list_set (default dflt symbols ++ added));
       symbols_after := default dflt symbols ++ added;
       default_after :=
         match symbols with
         | Some _ => dflt
         | None => default dflt symbols ++ added
         end |}.
Proof.
  intros Hadd. unfold load_symbol_list. rewrite Hadd. reflexivity.
Qed.

Lemma length_zero_iff_nil {A : Type} (l : list A) :
  (length l =? 0)%nat = true <-> l = [].
Proof. destruct l; simpl; split; congruence. Qed.

(** X9. What [load_symbol_list] returns has no repetition and holds
    exactly the symbols of the list bound to [symbols] and those of
    the one group selected; it is never empty. The list bound to
    [symbols], the caller's own list when one is passed, is left
    extended by the symbols of the group. *)
Theorem load_symbol_list_returns
  (sp : result (list string)) (groups symbols : option (list string))
  (dflt l : list string) :
  returned (load_symbol_list sp groups symbols dflt) = Ok l ->
  exists added,
    group_symbols sp (default default_groups groups) = Ok added /\
    symbols_after (load_symbol_list sp groups symbols dflt)
    = default dflt symbols ++ added /\
    l <> [] /\ NoDup l /\
    (forall x, In x l <-> In x (default dflt symbols) \/ In x added).
Proof.
  destruct (group_symbols sp (default default_groups groups)) as [added|e]
    eqn:Hadd.
  2:{ unfold load_symbol_list. rewrite Hadd. cbn [returned]. discriminate. }
  rewrite (load_symbol_list_added sp groups symbols dflt added Hadd).
  cbn [returned symbols_after].
  destruct (length (default dflt symbols ++ added) =? 0)%nat eqn:Hlen;
    [discriminate|].
  intros [= <-]. exists added. split; [reflexivity|]. split; [reflexivity|].
  assert (Hmem : forall x, In x (list_set (default dflt symbols ++ added))
                           <-> In x (default dflt symbols) \/ In x added).
  { intros x. rewrite list_set_In, in_app_iff. reflexivity. }
  split; [|split; [apply list_set_NoDup|exact Hmem]].
  intros Hnil.
  destruct (default dflt symbols ++ added) as [|a rest] eqn:E;
    [discriminate Hlen|].
  assert (Ha : In a (list_set (a :: rest))).
  { apply (proj2 (list_set_In a (a :: rest))). left. reflexivity. }
  rewrite Hnil in Ha. destruct Ha.
Qed.

(** A list that is returned is neither empty nor repetitive. *)
Lemma load_symbol_list_listed
  (sp : result (list string)) (groups symbols : option (list string))
  (dflt l : list string) :
  returned (load_symbol_list sp groups symbols dflt) = Ok l ->
  l <> [] /\ NoDup l.
Proof.
  unfold load_symbol_list.
  destruct (group_symbols sp _) as [added|]; cbn [returned]; [|discriminate].
  destruct (default dflt symbols ++ added) as [|a rest]; [discriminate|].
  cbn [length Nat.eqb]. intros [= <-]. split; [|apply list_set_NoDup].
  intros Hnil.
  assert (Ha : In a (list_set (a :: rest))).
  { apply (proj2 (list_set_In a (a :: rest))). left. reflexivity. }
  rewrite Hnil in Ha. destruct Ha.
Qed.

Lemma dji_for_spy :
  returned (load_symbol_list (Ok ["mmm"]) (Some ["dji"]) (Some ["spy"; "spy"]) [])
  = Ok (list_set (["spy"; "spy"] ++ dji_components)).
Proof. reflexivity. Defined.

Lemma load_symbol_list_returns_witness :
  exists added,
    group_symbols (Ok ["mmm"]) ["dji"] = Ok added /\
    symbols_after
      (load_symbol_list (Ok ["mmm"]) (Some ["dji"]) (Some ["spy"; "spy"]) [])
    = ["spy"; "spy"] ++ added /\
    list_set (["spy"; "spy"] ++ dji_components) <> [] /\
    NoDup (list_set (["spy"; "spy"] ++ dji_components)) /\
    (forall x, In x (list_set (["spy"; "spy"] ++ dji_components))
               <-> In x ["spy"; "spy"] \/ In x added).
Proof.
  exact (load_symbol_list_returns (Ok ["mmm"]) (Some ["dji"])
           (Some ["spy"; "spy"]) [] _ dji_for_spy).
Defined.

(** X10. When the group chain gives a list (no failure of the ranking
    table), [load_symbol_list] raises [ValueError] exactly when the
    list bound to [symbols] is empty and the group adds nothing; the
    default list is then left as it was. With no known group among
    [groups] and no symbol it raises. *)
Theorem load_symbol_list_raises_iff
  (sp : result (list string)) (groups symbols : option (list string))
  (dflt added : list string) :
  group_symbols sp (default default_groups groups) = Ok added ->
  (returned (load_symbol_list sp groups symbols dflt) = Raise ValueError <->
   default dflt symbols = [] /\ added = []) /\
  (returned (load_symbol_list sp groups symbols dflt) = Raise ValueError ->
   default_after (load_symbol_list sp groups symbols dflt) = dflt /\
   symbols_after (load_symbol_list sp groups symbols dflt) = []).
Proof.
  intros Hadd.
  rewrite (load_symbol_list_added sp groups symbols dflt added Hadd).
  cbn [returned default_after symbols_after].
  assert (Hiff : (if (length (default dflt symbols ++ added) =? 0)%nat
                  then Raise ValueError
                  else Ok (list_set (default dflt symbols ++ added)))
                 = Raise ValueError
                 <-> default dflt symbols = [] /\ added = []).
  { destruct (length (default dflt symbols ++ added) =? 0)%nat eqn:Hlen.
    - apply length_zero_iff_nil in Hlen. apply app_eq_nil in Hlen.
      split; auto.
    - split; [discriminate|]. intros [H1 H2]. rewrite H1, H2 in Hlen.
      discriminate Hlen. }
  split; [exact Hiff|].
  intros Hraise. apply Hiff in Hraise as [H1 H2]. rewrite H1, H2.
  split; [|reflexivity].
  destruct symbols as [given|]; [reflexivity|]. simpl in H1. simpl. congruence.
Qed.

Lemma load_symbol_list_raises_iff_witness :
  returned (load_symbol_list (Ok ["mmm"]) (Some []) (Some []) ["left"])
  = Raise ValueError <->
  @nil string = [] /\ @nil string = [].
Proof.
  exact (proj1 (load_symbol_list_raises_iff (Ok ["mmm"]) (Some []) (Some [])
                  ["left"] [] eq_refl)).
Defined.

Lemma default_after_added (sp : result (list string))
  (groups dflt added : list string) :
  group_symbols sp groups = Ok added ->
  default_after (load_symbol_list sp (Some groups) None dflt) = dflt ++ added.
Proof.
  intros Hadd.
  rewrite (load_symbol_list_added sp (Some groups) None dflt added Hadd).
  reflexivity.
Qed.

(** X11. Calls that leave [symbols] out never clear the default list:
    after [n] such calls with the same groups it holds what it held
    followed by [n] copies of the symbols of the group, so that it
    grows by the size of the group at every call, while the symbols it
    holds, and with them what the next call returns, stay those of the
    first call. *)
Theorem default_list_grows
  (sp : result (list string)) (groups added : list string) (n : nat)
  (dflt : list string) :
  group_symbols sp groups = Ok added ->
  length (default_after_calls sp groups n dflt)
  = (length dflt + n * length added)%nat /\
  (forall x, In x (default_after_calls sp groups n dflt)
             <-> In x dflt \/ (n <> 0%nat /\ In x added)) /\
  (forall l,
     returned (load_symbol_list sp (Some groups) None
                 (default_after_calls sp groups n dflt)) = Ok l ->
     forall x, In x l <-> In x dflt \/ In x added).
Proof.
  intros Hadd.
  assert (Hlen : forall k d,
             length (default_after_calls sp groups k d)
             = (length d + k * length added)%nat).
  { induction k as [|k IH]; intros d; cbn [default_after_calls]; [lia|].
    rewrite IH, (default_after_added sp groups d added Hadd), length_app.
    lia. }
  assert (Hmem : forall k d x,
             In x (default_after_calls sp groups k d)
             <-> In x d \/ (k <> 0%nat /\ In x added)).
  { induction k as [|k IH]; intros d x; cbn [default_after_calls].
    - split; [auto|]. intros [H|[H _]]; [exact H|congruence].
    - rewrite IH, (default_after_added sp groups d added Hadd), in_app_iff.
      split.
      + intros [[H|H]|[_ H]]; auto.
      + intros [H|[_ H]]; auto. }
  split; [apply Hlen|]. split; [apply Hmem|].
  intros l.
  rewrite (load_symbol_list_added sp (Some groups) None _ added Hadd).
  cbn [returned from_option id].
  destruct (length _ =? 0)%nat; [discriminate|].
  intros [= <-] x. rewrite list_set_In, in_app_iff, Hmem. tauto.
Qed.

Lemma default_list_grows_witness :
  length (default_after_calls (Ok ["mmm"]) ["faves"] 3 [])
  = (length (@nil string) + 3 * length faves_components)%nat.
Proof.
  exact (proj1 (default_list_grows (Ok ["mmm"]) ["faves"] faves_components
                  3 [] eq_refl)).
Defined.

End SymbolListMore.

(** ** Further properties of the collection pipeline *)

Section PipelineMore.

Import Collector.

Context {hist stats : Type}.
Variable load_historical : string -> result hist.
Variable run_backtest : hist -> result stats.
Variable load_calendar : string -> result Iex.CalendarSummary.

Local Abbreviation row := (@Collector.row stats).
Local Abbreviation stats_for := (stats_for load_historical run_backtest load_calendar).
Local Abbreviation events_of := (events_of load_historical run_backtest).
Local Abbreviation calls_of := (calls_of load_historical run_backtest load_calendar).
Local Abbreviation generate_stats :=
  (generate_stats load_historical run_backtest load_calendar).
Local Abbreviation run_collection :=
  (run_collection load_historical run_backtest load_calendar).
Local Abbreviation cmd_collect := (cmd_collect load_historical run_backtest load_calendar).

(** The row of a symbol pairs the statistics of its own history with
    its own calendar. *)
Lemma stats_for_inv (symbol : string) (r : row) :
  stats_for symbol = Ok r ->
  exists h, load_historical symbol = Ok h /\
            run_backtest h = Ok (fst r) /\
            load_calendar symbol = Ok (snd r).
Proof.
  unfold Collector.stats_for.
  destruct (load_historical symbol) as [h|]; cbn [bind]; [|discriminate].
  destruct (run_backtest h) as [c|] eqn:Hc; cbn [bind]; [|discriminate].
  destruct (load_calendar symbol) as [cal|]; cbn [bind]; [|discriminate].
  intros [= <-]. exists h. auto.
Qed.

Lemma rows_aligned (symbols : list string) (rows : list row) :
  mapM stats_for symbols = Ok rows ->
  calls_of symbols = flat_map all_calls symbols /\
  length rows = length symbols /\
  Forall2 (fun s r => exists h, load_historical s = Ok h /\
                                run_backtest h = Ok (fst r) /\
                                load_calendar s = Ok (snd r))
    symbols rows.
Proof.
  intros H. pose proof (mapM_Ok_inv _ _ _ H) as Hall.
  destruct (mapM_returned load_historical run_backtest load_calendar symbols)
    as (rows' & Hrows' & Hlen & Hcalls).
  { intros x Hx. clear - Hall Hx.
    induction Hall as [|s r ss rs Hsr _ IH]; [destruct Hx|].
    destruct Hx as [<-|Hx]; eauto. }
  assert (rows' = rows) as -> by congruence.
  split; [exact Hcalls|]. split; [exact Hlen|].
  clear - Hall. induction Hall as [|s r ss rs Hsr _ IH]; constructor; auto.
  apply stats_for_inv, Hsr.
Qed.

(** X12. A table that [run_collection] returns has the sequence given
    as its index and its rows aligned with it: the row at each place
    pairs the backtest of the history of the symbol at that place with
    the calendar of that same symbol. The calls logged are the four
    calls of each symbol, symbol after symbol. It returns one as soon
    as every symbol of the sequence can be collected: the check of the
    table on the length of the index never fails. *)
Theorem run_collection_returns (symbols : list string) (tr : list event) :
  (forall t tr',
     run_collection symbols tr = (Ok t, tr') ->
     tbl_index t = symbols /\
     tr' = tr ++ flat_map all_calls symbols /\
     Forall2 (fun s r => exists h, load_historical s = Ok h /\
                                   run_backtest h = Ok (fst r) /\
                                   load_calendar s = Ok (snd r))
       symbols (tbl_rows t)) /\
  ((forall x, In x symbols -> exists r, stats_for x = Ok r) ->
   exists t tr', run_collection symbols tr = (Ok t, tr')).
Proof.
  split.
  - intros t tr'. rewrite run_collection_run.
    destruct (mapM stats_for symbols) as [rows|] eqn:Hrows; cbn [bind];
      [|discriminate].
    destruct (rows_aligned symbols rows Hrows) as (Hcalls & Hlen & Hall).
    rewrite (make_table_returned _ _ Hlen), Hcalls.
    intros [= <- <-]. cbn [tbl_index tbl_rows]. auto.
  - intros Hok.
    destruct (run_collection_returned load_historical run_backtest
                load_calendar symbols tr Hok) as (rows & Hrun & _).
    eauto.
Qed.

(** X13. Collecting a sequence made of two parts is collecting the
    first part and then, if it raised nothing, the second part from
    the log the first one left: the rows are those of the first part
    followed by those of the second, and a failure of the first part
    leaves the second untouched. *)
Theorem generate_stats_app (first second : list string) (tr : list event) :
  generate_stats (first ++ second) tr
  = match generate_stats first tr with
    | (Ok rows1, tr1) =>
        match generate_stats second tr1 with
        | (Ok rows2, tr2) => (Ok (rows1 ++ rows2), tr2)
        | (Raise e, tr2) => (Raise e, tr2)
        end
    | (Raise e, tr1) => (Raise e, tr1)
    end.
Proof.
  revert tr. induction first as [|symbol rest IH]; intros tr.
  - cbn [app Collector.generate_stats pure].
    destruct (generate_stats second tr) as [[rows2|e] tr2]; reflexivity.
  - cbn [app Collector.generate_stats]. unfold and_then, pure.
    destruct (Collector.collect_one load_historical run_backtest load_calendar
                symbol tr) as [[r|e] tr0]; [|reflexivity].
    rewrite IH.
    destruct (generate_stats rest tr0) as [[rows1|e] tr1]; [|reflexivity].
    destruct (generate_stats second tr1) as [[rows2|e] tr2]; reflexivity.
Qed.

(** X14. [cmd_collect] asks for nothing before it knows its symbols:
    when [load_symbol_list] raises, and so when neither a symbol nor a
    group was given, it raises the same with the log as it was. A
    table it returns has a non-empty index without repetition and one
    row per label. *)
Theorem cmd_collect_symbols_first
  (sp : result (list string)) (dflt : list string)
  (group symbol : option (list string)) (tr : list event) :
  (forall e,
     returned (load_symbol_list sp (Some (or_empty group))
                 (Some (or_empty symbol)) dflt) = Raise e ->
     cmd_collect sp dflt group symbol tr = (Raise e, tr)) /\
  (or_empty group = [] -> or_empty symbol = [] ->
   cmd_collect sp dflt group symbol tr = (Raise ValueError, tr)) /\
  (forall t tr',
     cmd_collect sp dflt group symbol tr = (Ok t, tr') ->
     tbl_index t <> [] /\ NoDup (tbl_index t) /\
     length (tbl_rows t) = length (tbl_index t) /\
     returned (load_symbol_list sp (Some (or_empty group))
                 (Some (or_empty symbol)) dflt) = Ok (tbl_index t)).
Proof.
  assert (Hraise : forall e,
             returned (load_symbol_list sp (Some (or_empty group))
                         (Some (or_empty symbol)) dflt) = Raise e ->
             cmd_collect sp dflt group symbol tr = (Raise e, tr)).
  { intros e He. unfold Collector.cmd_collect, and_then, lift.
    rewrite He. reflexivity. }
  split; [exact Hraise|]. split.
  - intros Hg Hs. apply Hraise. rewrite Hg, Hs. reflexivity.
  - intros t tr'. unfold Collector.cmd_collect, and_then, lift.
    destruct (returned _) as [l|e] eqn:Hl; [|discriminate].
    rewrite run_collection_run.
    destruct (mapM stats_for l) as [rows|] eqn:Hrows; cbn [bind];
      [|discriminate].
    destruct (rows_aligned l rows Hrows) as (_ & Hlen & _).
    rewrite (make_table_returned _ _ Hlen).
    intros [= <- _]. cbn [tbl_index tbl_rows].
    destruct (load_symbol_list_listed sp (Some (or_empty group))
                (Some (or_empty symbol)) dflt l Hl) as [Hne Hnd].
    auto.
Qed.

End PipelineMore.

Lemma run_collection_returns_witness :
  exists t tr',
    Collector.run_collection Fixtures.any_history Fixtures.any_backtest
      Fixtures.sample_calendar ["aapl"; "msft"] []
    = (Ok t, tr').
Proof.
  apply (proj2 (run_collection_returns Fixtures.any_history
                  Fixtures.any_backtest Fixtures.sample_calendar
                  ["aapl"; "msft"] [])).
  intros x _. apply sample_environment_returns.
Defined.

Lemma cmd_collect_symbols_first_witness :
  Collector.cmd_collect Fixtures.any_history Fixtures.any_backtest
    Fixtures.sample_calendar (Ok ["mmm"]) [] None None []
  = (Raise ValueError, []).
Proof.
  apply (proj1 (proj2 (cmd_collect_symbols_first Fixtures.any_history
                         Fixtures.any_backtest Fixtures.sample_calendar
                         (Ok ["mmm"]) [] None None []))); reflexivity.
Defined.

(** ** The dates of the loaded frames *)

Section LoadedDates.

Import Iex Notions.

Lemma date_fields_are_midnights (k : string) (rs : list record)
  (ds : list datetime) :
  Forall2 (date_field k) rs ds ->
  Forall (fun t => is_datetime t /\ t mod US_PER_DAY = 0) ds.
Proof.
  induction 1 as [|r t rs ds (s & _ & Ht) _ IH]; constructor; [|exact IH].
  apply (strptime_ymd_range s t Ht).
Qed.

Lemma earnings_dates_midnight (api : Remote) (symbol : string) (e : DateFrame) :
  load_earnings api symbol = Ok (Some e) ->
  Forall (fun t => is_datetime t /\ t mod US_PER_DAY = 0) (index e).
Proof.
  intros He. unfold load_earnings in He.
  destruct (get_earnings api symbol) as [payload|] eqn:Hget;
    cbn [bind] in He; [|discriminate].
  destruct (assoc "earnings" payload) as [[[| | |]|rs]|] eqn:Hrs;
    try discriminate He.
  pose proof (load_earnings_unfold api symbol payload rs Hget Hrs) as Hun.
  unfold load_earnings in Hun. rewrite Hget in Hun. cbn [bind] in Hun.
  rewrite Hrs in Hun. rewrite Hun in He.
  destruct (parse_and_index _ _ _) as [d|] eqn:Ed; cbn [bind] in He;
    [|discriminate].
  injection He as <-.
  destruct (parse_and_index_inv ["EPSReportDate"; "fiscalEndDate"]
              "EPSReportDate" rs d (or_introl eq_refl) Ed) as (_ & H2 & _).
  apply (date_fields_are_midnights _ _ _ H2).
Qed.

(** X15. The index of a frame that a loader returns holds datetimes of
    the calendar, each at midnight: the estimator is never handed
    anything else by [load_calendar]. *)
Theorem loaded_index_is_dates (api : Remote) (symbol : string) (f : DateFrame) :
  load_earnings api symbol = Ok (Some f) \/
  load_dividends api symbol = Ok (Some f) ->
  Forall (fun t => is_datetime t /\ t mod US_PER_DAY = 0) (index f).
Proof.
  intros [He|Hd].
  - apply (earnings_dates_midnight api symbol f He).
  - destruct (get_dividends api symbol) as [rs|] eqn:Hget.
    2:{ unfold load_dividends in Hd. rewrite Hget in Hd. discriminate Hd. }
    rewrite (load_dividends_unfold api symbol rs Hget) in Hd.
    destruct (has_key _ _); [|discriminate].
    destruct (parse_and_index _ _ _) as [d|] eqn:Ed; cbn [bind] in Hd;
      [|discriminate].
    injection Hd as <-.
    destruct (parse_and_index_inv _ _ rs d exDate_is_a_date_col Ed)
      as (_ & H2 & _).
    apply (date_fields_are_midnights _ _ _ H2).
Qed.

Lemma loaded_index_is_dates_witness :
  Forall (fun t => is_datetime t /\ t mod US_PER_DAY = 0)
    (index Fixtures.sample_earnings_frame).
Proof.
  apply (loaded_index_is_dates Fixtures.sample_api "AAPL").
  left. vm_compute. reflexivity.
Defined.

End LoadedDates.

(** ** The cache of the ranking table *)

Section WeightsFacts.

Import Weights.

Variable table : Type.
Variable read_csv : string -> result table.
Variable scrape : string -> result table.
Variable to_csv : table -> string.

Local Abbreviation load_sp500_weights :=
  (load_sp500_weights table read_csv scrape to_csv).

(** X16. [load_sp500_weights] never rewrites a cache file it could
    open and never leaves one behind when it fails: a call that fails
    leaves the files as they were, a call made with a readable cache
    returns what [read_csv] reads from it whatever the page holds, and
    a call that returns leaves a cache file and the page as it was, so
    that what a following call returns is read from the cache and no
    longer depends on the page. *)
Theorem load_sp500_weights_cache (fs : files) :
  (forall f fs', load_sp500_weights fs = (Failed f, fs') -> fs' = fs) /\
  (forall text, cache_file fs = Some text ->
     load_sp500_weights fs = (of_result (read_csv text), fs)) /\
  (forall t fs',
     load_sp500_weights fs = (Done t, fs') ->
     page_file fs' = page_file fs /\
     exists text,
       cache_file fs' = Some text /\
       (cache_file fs = None -> text = to_csv t) /\
       forall page,
         fst (load_sp500_weights
                {| cache_file := cache_file fs';
                   cache_writable := cache_writable fs';
                   page_file := page |})
         = of_result (read_csv text)).
Proof.
  unfold Weights.load_sp500_weights. split; [|split].
  - intros f fs'. destruct (cache_file fs) as [text|].
    + intros [= _ <-]. reflexivity.
    + destruct (page_file fs) as [html|]; [|intros [= _ <-]; reflexivity].
      destruct (scrape html) as [df|e]; [|intros [= _ <-]; reflexivity].
      destruct (cache_writable fs); [discriminate|].
      intros [= _ <-]. reflexivity.
  - intros text ->. reflexivity.
  - intros t fs'. destruct (cache_file fs) as [text|] eqn:Hc.
    + intros [= Ht <-]. split; [reflexivity|]. exists text.
      split; [exact Hc|]. split; [discriminate|].
      intros page. cbn [cache_file]. rewrite Hc. reflexivity.
    + destruct (page_file fs) as [html|] eqn:Hp; [|discriminate].
      destruct (scrape html) as [df|e]; [|discriminate].
      destruct (cache_writable fs); [|discriminate].
      intros [= <- <-]. cbn [page_file cache_file]. split; [reflexivity|].
      exists (to_csv df). split; [reflexivity|]. split; reflexivity.
Qed.

End WeightsFacts.

Lemma load_sp500_weights_cache_witness :
  Weights.load_sp500_weights string Ok Ok id
    {| Weights.cache_file := Some "Symbol,Weight";
       Weights.cache_writable := false;
       Weights.page_file := None |}
  = (Weights.of_result (Ok "Symbol,Weight"),
     {| Weights.cache_file := Some "Symbol,Weight";
        Weights.cache_writable := false;
        Weights.page_file := None |}).
Proof.
  apply (proj1 (proj2 (load_sp500_weights_cache string Ok Ok id
                         {| Weights.cache_file := Some "Symbol,Weight";
                            Weights.cache_writable := false;
                            Weights.page_file := None |}))).
  reflexivity.
Defined.

(** ** The cache file of the ranking table *)

Section CsvFacts.

Import Csv.

Context {float : Type}.
Variable float_text : float -> text.
Variable read_int : text -> option Z.
Variable read_float : text -> option float.
Variable read_bool : text -> option bool.
Variable of_int : Z -> float.
Variable na_values : list text.

Local Abbreviation is_na := (is_na na_values).
Local Abbreviation convert := (convert na_values).
Local Abbreviation read_column :=
  (read_column read_int read_float read_bool of_int na_values).
Local Abbreviation read_csv :=
  (read_csv read_int read_float read_bool of_int na_values).
Local Abbreviation to_csv := (to_csv float_text).

Lemma pychar_eqb_eq (a b : pychar) : pychar_eqb a b = true <-> a = b.
Proof.
  destruct a, b; simpl; try (split; [discriminate|congruence]).
  - rewrite Ascii.eqb_eq. split; congruence.
  - rewrite andb_true_iff, N.eqb_eq, Z.eqb_eq. split.
    + intros [-> ->]. reflexivity.
    + intros [= -> ->]. auto.
  - rewrite N.eqb_eq. split; congruence.
Qed.

Lemma text_eqb_eq (s t : text) : text_eqb s t = true <-> s = t.
Proof.
  revert t. induction s as [|a s IH]; intros [|b t]; simpl;
    try (split; [discriminate|congruence]); [tauto|].
  rewrite andb_true_iff, pychar_eqb_eq, IH. split.
  - intros [-> ->]. reflexivity.
  - intros [= -> ->]. auto.
Qed.

Lemma is_na_In (f : text) : is_na f = true <-> In f na_values.
Proof.
  unfold Csv.is_na. rewrite existsb_exists. split.
  - intros (x & Hx & Heq). apply text_eqb_eq in Heq. subst x. exact Hx.
  - intros H. exists f. split; [exact H|]. apply text_eqb_eq. reflexivity.
Qed.

Lemma convert_length {A : Type} (read : text -> option A) (fs : list text)
  (xs : list (option A)) :
  convert read fs = Some xs -> length xs = length fs.
Proof.
  revert xs. induction fs as [|f fs IH]; intros xs; cbn [Csv.convert].
  - intros [= <-]. reflexivity.
  - destruct (is_na f).
    + destruct (convert read fs) as [ys|]; [|discriminate].
      intros [= <-]. simpl. rewrite (IH ys eq_refl). reflexivity.
    + destruct (read f); [|discriminate].
      destruct (convert read fs) as [ys|]; [|discriminate].
      intros [= <-]. simpl. rewrite (IH ys eq_refl). reflexivity.
Qed.

(** Whatever the converter, a field that stands for a missing value is
    read as one. *)
Lemma convert_na {A : Type} (read : text -> option A) (fs : list text)
  (xs : list (option A)) (i : nat) (f : text) :
  convert read fs = Some xs -> nth_error fs i = Some f -> is_na f = true ->
  nth_error xs i = Some None.
Proof.
  revert xs i. induction fs as [|g fs IH]; intros xs i; cbn [Csv.convert].
  - intros _ H. destruct i; discriminate H.
  - destruct (is_na g) eqn:Eg.
    + destruct (convert read fs) as [ys|]; [|discriminate].
      intros [= <-]. destruct i as [|i]; simpl.
      * reflexivity.
      * apply (IH ys i eq_refl).
    + destruct (read g); [|discriminate].
      destruct (convert read fs) as [ys|]; [|discriminate].
      intros [= <-]. destruct i as [|i]; simpl.
      * intros [= ->]. congruence.
      * apply (IH ys i eq_refl).
Qed.

Lemma read_column_length (fs : list text) :
  length (read_column fs) = length fs.
Proof.
  unfold Csv.read_column.
  destruct (convert read_int fs) as [ns|] eqn:E1.
  { rewrite length_map. apply (convert_length _ _ _ E1). }
  destruct (convert read_float fs) as [xs|] eqn:E2.
  { rewrite length_map. apply (convert_length _ _ _ E2). }
  destruct (convert read_bool fs) as [bs|] eqn:E3.
  { rewrite length_map. apply (convert_length _ _ _ E3). }
  apply length_map.
Qed.

(** In a column of any type, a field that stands for a missing value
    is read as NaN. *)
Lemma read_column_na (fs : list text) (i : nat) (f : text) :
  nth_error fs i = Some f -> is_na f = true ->
  nth_error (read_column fs) i = Some NaN.
Proof.
  intros Hf Hna. unfold Csv.read_column.
  destruct (convert read_int fs) as [ns|] eqn:E1.
  { rewrite nth_error_map, (convert_na _ _ _ _ _ E1 Hf Hna). reflexivity. }
  destruct (convert read_float fs) as [xs|] eqn:E2.
  { rewrite nth_error_map, (convert_na _ _ _ _ _ E2 Hf Hna). reflexivity. }
  destruct (convert read_bool fs) as [bs|] eqn:E3.
  { rewrite nth_error_map, (convert_na _ _ _ _ _ E3 Hf Hna). reflexivity. }
  rewrite nth_error_map, Hf. cbn [option_map]. rewrite Hna. reflexivity.
Qed.

Lemma convert_none {A : Type} (read : text -> option A) (fs : list text)
  (f : text) :
  In f fs -> is_na f = false -> read f = None -> convert read fs = None.
Proof.
  induction fs as [|g fs IH]; intros Hin Hna Hread; [destruct Hin|].
  cbn [Csv.convert]. destruct Hin as [->|Hin].
  - rewrite Hna, Hread. reflexivity.
  - rewrite (IH Hin Hna Hread).
    destruct (is_na g); [reflexivity|]. destruct (read g); reflexivity.
Qed.

(** A column of texts is read back as it was written when no text
    stands for a missing value and one of them is neither a number nor
    a boolean. *)
Lemma read_column_texts (fs : list text) (f : text) :
  Forall (fun g => is_na g = false) fs ->
  In f fs -> read_int f = None -> read_float f = None -> read_bool f = None ->
  read_column fs = map Str fs.
Proof.
  intros Hall Hin H1 H2 H3.
  pose proof (proj1 (List.Forall_forall _ _) Hall f Hin) as Hna.
  unfold Csv.read_column.
  rewrite (convert_none read_int fs f Hin Hna H1).
  rewrite (convert_none read_float fs f Hin Hna H2).
  rewrite (convert_none read_bool fs f Hin Hna H3).
  apply map_ext_in. intros g Hg.
  rewrite (proj1 (List.Forall_forall _ _) Hall g Hg). reflexivity.
Qed.

(** The column [name] of the table read back: what [read_column] makes
    of the fields written for the column [name]. *)
Lemma column_read_columns (name : text) (s : sheet) (fs : list text) (i : nat) :
  name <> [] ->
  column name s = Some fs ->
  (forall k, text_eqb name (str "Unnamed: " ++ int_text (Z.of_nat k)) = false) ->
  column name (read_columns read_int read_float read_bool of_int na_values i s)
  = Some (read_column fs).
Proof.
  intros Hne Hcol Hun. revert i Hcol.
  induction s as [|[n gs] s IH]; intros i; cbn [column read_columns];
    [discriminate|].
  destruct n as [|c n]; cbn [column_name].
  - rewrite Hun.
    assert (Hnil : text_eqb name [] = false)
      by (destruct name; [congruence|reflexivity]).
    rewrite Hnil. apply IH.
  - destruct (text_eqb name (c :: n)); [|apply IH].
    intros [= ->]. reflexivity.
Qed.

Lemma column_to_csv (name : text) (t : frame float) (cells : list (cell float)) :
  name <> [] ->
  column name t = Some cells ->
  column name (to_csv t) = Some (map (field_of float_text) cells).
Proof.
  intros Hne Hcol. unfold Csv.to_csv. cbn [column].
  assert (Hnil : text_eqb name [] = false)
      by (destruct name; [congruence|reflexivity]).
  rewrite Hnil. clear Hnil.
  induction t as [|[n cs] t IH]; cbn [map column fst snd] in *; [discriminate|].
  destruct (text_eqb name n); [|apply IH, Hcol].
  injection Hcol as <-. reflexivity.
Qed.

Lemma Symbol_is_named (k : nat) :
  text_eqb (str "Symbol") (str "Unnamed: " ++ int_text (Z.of_nat k)) = false.
Proof. reflexivity. Qed.

(** C8. The round trip through the cache file does not give back the
    Symbol column: a symbol that is a text which [read_csv] takes for
    a missing value, as "NA" is, comes back as NaN, in the row where
    the text was. The table read back has a Symbol column of the same
    length, so the rows stay in line, and it differs from the table
    that was written. When the column holds a ticker, a text that is
    neither a missing value nor a number nor a boolean, that is all
    the difference: every symbol comes back as it was written but
    those that stand for a missing value. *)
Theorem cache_loses_missing_value_symbols
  (t : frame float) (symbols : list (cell float)) (i : nat) (s : text) :
  column (str "Symbol") t = Some symbols ->
  nth_error symbols i = Some (Str s) ->
  In s na_values ->
  exists symbols',
    column (str "Symbol") (read_csv (to_csv t)) = Some symbols' /\
    length symbols' = length symbols /\
    nth_error symbols' i = Some NaN /\
    symbols' <> symbols /\
    forall texts ticker,
      symbols = map Str texts ->
      In ticker texts -> is_na ticker = false ->
      read_int ticker = None -> read_float ticker = None ->
      read_bool ticker = None ->
      symbols' = map (fun x => if is_na x then NaN else Str x) texts.
Proof.
  intros Hcol Hi Hna.
  assert (Hne : str "Symbol" <> []) by discriminate.
  pose proof (column_to_csv _ t symbols Hne Hcol) as Hw.
  pose proof (column_read_columns _ _ _ O Hne Hw Symbol_is_named) as Hr.
  exists (read_column (map (field_of float_text) symbols)).
  assert (Hnan : nth_error (read_column (map (field_of float_text) symbols)) i
                 = Some NaN).
  { apply (read_column_na _ i s).
    - rewrite nth_error_map, Hi. reflexivity.
    - apply is_na_In, Hna. }
  split; [exact Hr|]. split; [|split; [exact Hnan|split]].
  - rewrite read_column_length. apply length_map.
  - intros Heq. rewrite Heq, Hi in Hnan. discriminate Hnan.
  - intros texts ticker -> Hin Hno H1 H2 H3.
    rewrite map_map. cbn [field_of]. rewrite map_id.
    unfold Csv.read_column.
    rewrite (convert_none read_int texts ticker Hin Hno H1).
    rewrite (convert_none read_float texts ticker Hin Hno H2).
    rewrite (convert_none read_bool texts ticker Hin Hno H3).
    reflexivity.
Qed.

End CsvFacts.

(** The sample table, written and read back: the ticker "NA" is lost,
    the other cells of the four columns are as they were. *)
Example sample_table_read_back :
  Csv.read_csv Csv.plain_int Csv.plain_float Csv.plain_bool Csv.plain_of_int
    Csv.na_values (Csv.to_csv id Csv.sample_table)
  = [(str "Unnamed: 0", [Csv.Int 0; Csv.Int 1]);
     (str "Company", [Csv.Str (str "Apple Inc."); Csv.Str (str "Nano Labs")]);
     (str "Symbol", [Csv.Str (str "AAPL"); Csv.NaN]);
     (str "Weight", [Csv.Float (str "4.25"); Csv.Float (str "0.01")]);
     (str "Price", [Csv.Float (str "190.5"); Csv.Float (str "7.25")]);
     (str "Change", [Csv.Float (str "1.5"); Csv.Float (str "0.25")])].
Proof. vm_compute. reflexivity. Qed.

(** Two calls of [load_sp500_weights] in a row, the first without a
    cache file: the first returns the table of the page, the second
    the table read back, which is not the same. *)
Example load_sp500_weights_twice (html : string) :
  let load :=
    Weights.load_sp500_weights (Csv.frame text)
      (fun s => Ok (Csv.read_csv Csv.plain_int Csv.plain_float Csv.plain_bool
                      Csv.plain_of_int Csv.na_values s))
      (fun _ => Ok Csv.sample_table)
      (Csv.to_csv id) in
  let fs := {| Weights.cache_file := None;
               Weights.cache_writable := true;
               Weights.page_file := Some html |} in
  option_map (Csv.column (str "Symbol"))
    (match fst (load fs) with Weights.Done t => Some t | _ => None end)
  = Some (Some [Csv.Str (str "AAPL"); Csv.Str (str "NA")]) /\
  option_map (Csv.column (str "Symbol"))
    (match fst (load (snd (load fs))) with
     | Weights.Done t => Some t
     | _ => None
     end)
  = Some (Some [Csv.Str (str "AAPL"); Csv.NaN]).
Proof. split; vm_compute; reflexivity. Qed.

Lemma cache_loses_missing_value_symbols_witness :
  exists symbols',
    Csv.column (str "Symbol")
      (Csv.read_csv Csv.plain_int Csv.plain_float Csv.plain_bool
         Csv.plain_of_int Csv.na_values (Csv.to_csv id Csv.sample_table))
    = Some symbols' /\
    length symbols' = 2%nat /\
    nth_error symbols' 1 = Some Csv.NaN /\
    symbols' <> [Csv.Str (str "AAPL"); Csv.Str (str "NA")] /\
    forall texts ticker,
      [Csv.Str (str "AAPL"); Csv.Str (str "NA")]
      = map (@Csv.Str text) texts ->
      In ticker texts -> Csv.is_na Csv.na_values ticker = false ->
      Csv.plain_int ticker = None -> Csv.plain_float ticker = None ->
      Csv.plain_bool ticker = None ->
      symbols' = map (fun x => if Csv.is_na Csv.na_values x
                               then Csv.NaN else Csv.Str x) texts.
Proof.
  apply (cache_loses_missing_value_symbols id Csv.plain_int Csv.plain_float
           Csv.plain_bool Csv.plain_of_int Csv.na_values Csv.sample_table
           [Csv.Str (str "AAPL"); Csv.Str (str "NA")] 1 (str "NA")).
  - reflexivity.
  - reflexivity.
  - vm_compute. do 12 right. left. reflexivity.
Defined.

(** ** The estimator and the clock *)

Section EstimateClock.

Import Iex Reference.

Lemma midnight_before (t d n : Z) :
  d mod US_PER_DAY = 0 ->
  (t < d + timedelta_days n <-> t / US_PER_DAY < d / US_PER_DAY + n).
Proof.
  unfold timedelta_days, US_PER_DAY. intros Hd.
  Z.to_euclidean_division_equations. lia.
Qed.

Lemma survives_same_day (t1 t2 : Z) (ds : list datetime) (c : Z) :
  Forall (fun d => is_datetime d /\ d mod US_PER_DAY = 0) ds ->
  t1 / US_PER_DAY = t2 / US_PER_DAY ->
  candidate ds c -> survives t1 c -> survives t2 c.
Proof.
  intros Hmid Hday (d & Hd & Hc). unfold survives.
  pose proof (proj1 (List.Forall_forall _ _) Hmid d Hd) as [_ Hmod].
  destruct Hc as [-> | ->].
  - rewrite !days_365_365, !(midnight_before _ d 730 Hmod), Hday. auto.
  - rewrite !days_730_365, !(midnight_before _ d 1095 Hmod), Hday. auto.
Qed.

Lemma is_estimate_same_survivors (t1 t2 : Z) (ds : list datetime)
  (r : option Z) :
  (forall c, candidate ds c -> survives t1 c <-> survives t2 c) ->
  is_estimate t1 ds r -> is_estimate t2 ds r.
Proof.
  intros Hsame. destruct r as [c|]; simpl.
  - intros (Hc & Hs & Hle). split; [exact Hc|]. split.
    + apply (Hsame c Hc), Hs.
    + intros c' Hc' Hs'. apply (Hle c' Hc'). apply (Hsame c' Hc'), Hs'.
  - intros Hnone c Hc Hs. apply (Hnone c Hc). apply (Hsame c Hc), Hs.
Qed.

Lemma estimate_same_day (t1 t2 : datetime) (ds : list datetime) :
  Forall (fun d => is_datetime d /\ d mod US_PER_DAY = 0) ds ->
  t1 / US_PER_DAY = t2 / US_PER_DAY ->
  Iex.estimate_next t1 ds = Iex.estimate_next t2 ds.
Proof.
  intros Hmid Hday.
  assert (Hval : Forall is_datetime ds).
  { eapply List.Forall_impl; [|exact Hmid]. intros d [H _]. exact H. }
  destruct (representable_dec ds) as [Hrep|Hnot].
  - rewrite !(estimate_next_representable _ ds Hrep). f_equal.
    apply (is_estimate_unique t2 ds); [|apply estimate_is_estimate].
    apply (is_estimate_same_survivors t1 t2); [|apply estimate_is_estimate].
    intros c Hc. split.
    + apply (survives_same_day t1 t2 ds c Hmid Hday Hc).
    + apply (survives_same_day t2 t1 ds c Hmid (eq_sym Hday) Hc).
  - rewrite !(estimate_next_overflow _ ds Hval Hnot). reflexivity.
Qed.

(** X17. On dates at midnight, as the loaders give them, the
    estimate depends on the day of the clock reading only, not on the
    time of the day: two readings of the same day give the same
    outcome, which is that of the midnight that opens the day. *)
Theorem estimate_next_same_day (t1 t2 : datetime) (ds : list datetime) :
  Forall (fun d => is_datetime d /\ d mod US_PER_DAY = 0) ds ->
  t1 / US_PER_DAY = t2 / US_PER_DAY ->
  Iex.estimate_next t1 ds = Iex.estimate_next t2 ds /\
  Iex.estimate_next t1 ds
  = Iex.estimate_next (US_PER_DAY * (t1 / US_PER_DAY)) ds.
Proof.
  intros Hmid Hday. split.
  - apply (estimate_same_day t1 t2 ds Hmid Hday).
  - apply (estimate_same_day t1 _ ds Hmid).
    rewrite Z.mul_comm, Z.div_mul; [reflexivity|].
    unfold US_PER_DAY. discriminate.
Qed.

Lemma midnight_2023_02_01 :
  Forall (fun d => is_datetime d /\ d mod US_PER_DAY = 0) [ymd 2023 2 1].
Proof.
  constructor; [|constructor].
  split; [split; vm_compute; discriminate|vm_compute; reflexivity].
Defined.

Lemma estimate_next_same_day_witness :
  Iex.estimate_next (ymd 2024 6 1 + 3600000000) [ymd 2023 2 1]
  = Iex.estimate_next (ymd 2024 6 1 + 7200000000) [ymd 2023 2 1].
Proof.
  apply (estimate_next_same_day (ymd 2024 6 1 + 3600000000)
           (ymd 2024 6 1 + 7200000000) [ymd 2023 2 1] midnight_2023_02_01).
  vm_compute. reflexivity.
Defined.

Lemma filterM_ext_in {A : Type} (p q : A -> result bool) (xs : list A) :
  (forall x, In x xs -> p x = q x) -> filterM p xs = filterM q xs.
Proof.
  induction xs as [|x xs IH]; intros H; [reflexivity|].
  cbn [filterM]. rewrite (H x (or_introl eq_refl)), IH; [reflexivity|].
  intros y Hy. apply H. right. exact Hy.
Qed.

Lemma midnight_plus_days (d n : Z) :
  d mod US_PER_DAY = 0 -> (d + timedelta_days n) mod US_PER_DAY = 0.
Proof.
  intros H. unfold timedelta_days. rewrite Z.mod_add; [exact H|].
  unfold US_PER_DAY. discriminate.
Qed.

Lemma sums_at_midnight (add : datetime -> Z -> result datetime) (n : Z)
  (ds gs : list datetime) :
  (forall d k r, add d k = Ok r -> r = d + k) ->
  Forall (fun d => d mod US_PER_DAY = 0) ds ->
  mapM (fun i => add i (timedelta_days n)) ds = Ok gs ->
  Forall (fun d => d mod US_PER_DAY = 0) gs.
Proof.
  intros Hadd Hmid H. apply mapM_Ok_inv in H.
  induction H as [|d g ds' gs' Hg _ IH]; [constructor|].
  inversion Hmid as [|? ? Hd Hrest]; subst.
  constructor; [|apply IH, Hrest].
  rewrite (Hadd _ _ _ Hg). apply midnight_plus_days, Hd.
Qed.

(** Whatever the [+] of the elements, on dates at midnight the
    estimate depends on the day of the clock reading only. *)
Lemma estimate_next_with_same_day (add : datetime -> Z -> result datetime)
  (t1 t2 : datetime) (ds : list datetime) :
  (forall d k r, add d k = Ok r -> r = d + k) ->
  Forall (fun d => d mod US_PER_DAY = 0) ds ->
  t1 / US_PER_DAY = t2 / US_PER_DAY ->
  estimate_next_with add t1 ds = estimate_next_with add t2 ds.
Proof.
  intros Hadd Hmid Hday. unfold estimate_next_with.
  destruct (mapM (fun i => add i (timedelta_days 365)) ds) as [g365|] eqn:E1;
    cbn [bind]; [|reflexivity].
  destruct (mapM (fun i => add i (timedelta_days 730)) ds) as [g730|] eqn:E2;
    cbn [bind]; [|reflexivity].
  cbv zeta.
  rewrite (filterM_ext_in _ (fun i => try j <- add i (timedelta_days 365) in
                                      Ok (t2 <? j))); [reflexivity|].
  intros c Hc.
  assert (Hmod : c mod US_PER_DAY = 0).
  { pose proof (sums_at_midnight add 365 ds g365 Hadd Hmid E1) as H1.
    pose proof (sums_at_midnight add 730 ds g730 Hadd Hmid E2) as H2.
    apply in_app_iff in Hc as [Hc|Hc].
    - apply (proj1 (List.Forall_forall _ _) H1 c Hc).
    - apply (proj1 (List.Forall_forall _ _) H2 c Hc). }
  destruct (add c (timedelta_days 365)) as [j|] eqn:Ej; cbn [bind];
    [|reflexivity].
  rewrite (Hadd _ _ _ Ej). f_equal.
  pose proof (midnight_before t1 c 365 Hmod) as B1.
  pose proof (midnight_before t2 c 365 Hmod) as B2.
  destruct (Z.ltb_spec t1 (c + timedelta_days 365));
    destruct (Z.ltb_spec t2 (c + timedelta_days 365)); try reflexivity;
    exfalso; lia.
Qed.

(** X18. In a summary with an ex-dividend date, the two estimates are
    the same date whenever the two readings of the clock fall on the
    same day: [nextExDate] repeats [nextEPSReportDate], for it is made
    from the report dates as well. *)
Theorem load_calendar_next_dates_equal
  (today_eps today_ex : datetime) (api : Remote) (symbol : string)
  (s : CalendarSummary) :
  load_calendar today_eps today_ex api symbol = Ok s ->
  today_eps / US_PER_DAY = today_ex / US_PER_DAY ->
  lastExDate s <> None ->
  nextExDate s = nextEPSReportDate s.
Proof.
  unfold load_calendar.
  destruct (load_earnings api symbol) as [earnings|] eqn:He; cbn [bind];
    [|discriminate].
  destruct (load_earnings_frame _ _ _ He) as (e & -> & Hne).
  pose proof (earnings_dates_midnight api symbol e He) as Hmid.
  destruct (load_dividends api symbol) as [dividends|]; cbn [bind];
    [|discriminate].
  destruct (py_max (index e)) as [m|]; cbn [bind]; [|discriminate].
  intros Hs Hday.
  assert (Hmid' : Forall (fun d => d mod US_PER_DAY = 0) (index e)).
  { eapply List.Forall_impl; [|exact Hmid]. intros d [_ H]. exact H. }
  unfold estimate_next_index in Hs.
  rewrite <- (estimate_next_with_same_day (index_add (index e)) _ _ _
                (index_add_sum (index e)) Hmid' Hday) in Hs.
  destruct (estimate_next_with (index_add (index e)) today_eps (index e))
    as [n1|]; cbn [bind] in Hs; [|discriminate].
  destruct dividends as [d|].
  - destruct (py_max (index d)) as [last|]; cbn [bind] in Hs; [|discriminate].
    destruct (loc d last "amount") as [v|]; cbn [bind] in Hs; [|discriminate].
    injection Hs as <-. reflexivity.
  - cbn [bind] in Hs. injection Hs as <-. cbn. congruence.
Qed.

Lemma load_calendar_next_dates_equal_witness :
  load_calendar (ymd 2018 9 1) (ymd 2018 9 1 + 1) Fixtures.sample_api "AAPL"
  = Ok {| lastEPSReportDate := Some (ymd 2018 7 31);
          nextEPSReportDate := Some (ymd 2019 5 1);
          lastExDate := Some (ymd 2018 8 10);
          lastDividend := Some (VScalar (CVal (SNum (73 # 100))));
          nextExDate := Some (ymd 2019 5 1) |} /\
  Some (ymd 2019 5 1) = Some (ymd 2019 5 1).
Proof.
  assert (H : load_calendar (ymd 2018 9 1) (ymd 2018 9 1 + 1)
                Fixtures.sample_api "AAPL"
              = Ok {| lastEPSReportDate := Some (ymd 2018 7 31);
                      nextEPSReportDate := Some (ymd 2019 5 1);
                      lastExDate := Some (ymd 2018 8 10);
                      lastDividend := Some (VScalar (CVal (SNum (73 # 100))));
                      nextExDate := Some (ymd 2019 5 1) |})
    by (vm_compute; reflexivity).
  split; [exact H|].
  apply (load_calendar_next_dates_equal _ _ _ _ _ H).
  - vm_compute. reflexivity.
  - discriminate.
Defined.

(** X19. As the clock advances the estimate never moves back: on
    representable dates, an estimate made later is no earlier than one
    made before, and once there is no estimate there is none later. *)
Theorem estimate_next_monotone (today today' : datetime) (ds : list datetime) :
  representable ds -> today <= today' ->
  exists r r',
    Iex.estimate_next today ds = Ok r /\
    Iex.estimate_next today' ds = Ok r' /\
    (r = None -> r' = None) /\
    (forall c c', r = Some c -> r' = Some c' -> c <= c').
Proof.
  intros Hrep Hle.
  exists (estimate today ds), (estimate today' ds).
  rewrite !(estimate_next_representable _ ds Hrep).
  split; [reflexivity|]. split; [reflexivity|].
  pose proof (estimate_is_estimate today ds) as H1.
  pose proof (estimate_is_estimate today' ds) as H2.
  assert (Hsurv : forall c, survives today' c -> survives today c).
  { intros c. unfold survives. lia. }
  split.
  - intros Hnone. rewrite Hnone in H1. simpl in H1.
    destruct (estimate today' ds) as [c'|]; [|reflexivity].
    destruct H2 as (Hc' & Hs' & _). destruct (H1 c' Hc'). auto.
  - intros c c' Hr Hr'. rewrite Hr in H1. rewrite Hr' in H2.
    destruct H1 as (_ & _ & Hmin). destruct H2 as (Hc' & Hs' & _).
    apply Hmin; auto.
Qed.

Lemma estimate_next_monotone_witness :
  exists r r',
    Iex.estimate_next (ymd 2024 6 1) [ymd 2023 2 1] = Ok r /\
    Iex.estimate_next (ymd 2025 3 1) [ymd 2023 2 1] = Ok r' /\
    (r = None -> r' = None) /\
    (forall c c', r = Some c -> r' = Some c' -> c <= c').
Proof.
  apply (estimate_next_monotone (ymd 2024 6 1) (ymd 2025 3 1) [ymd 2023 2 1]
           representable_2023_02_01).
  vm_compute. discriminate.
Defined.

End EstimateClock.
